(** * node-json-db: a file-backed JSON document store with optional encryption

    Shallow embedding of the [JsonDB] class and of the JavaScript built-ins it
    calls, followed by the properties of the store.

    Conventions of the embedding.
    - Text is Rocq's [string]; one [ascii] stands for one character of a
      JavaScript string.  Characters above code 255 are outside the modelled
      alphabet.
    - Numbers are the integers [Z] (the type of document ids); number literals
      with a fraction or an exponent are outside the model.
    - A JavaScript object is its list of own properties in insertion order.
    - [undefined] is [None] of an option type.
    - An exception is a value of [exn]; code that can throw returns [result].
    - The file named by [this.dbFile] is the [disk]: [None] when it does not
      exist, [Some text] otherwise.  [writeFileSync] is the last effect of
      every operation that writes, so an operation returns the new disk
      when it succeeds and leaves the disk as it was when it throws.
    - [randomBytes] and [Date.now] are inputs of the operations that call
      them.
    - [pbkdf2Sync] and the cipher objects of [node:crypto] are a parameter,
      the record [CryptoLib].
    - The member names of the built-in prototypes are a parameter of [find],
      the function [inherits]. *)

From Stdlib Require Import String Ascii List ZArith NArith Bool Lia.
From Stdlib Require Import Decimal DecimalString DecimalN DecimalFacts.
From Stdlib.Strings Require Byte.
Import ListNotations.
Open Scope string_scope.

(* ================================================================== *)
(** * Part I: definitions *)
(* ================================================================== *)

(** ** Exceptions and results *)

Inductive exn : Type :=
| Error (message : string)   (* [throw new Error(message)] *)
| SyntaxError                (* thrown by [JSON.parse] *)
| TypeError                  (* reading a property of [null], calling a non-function *)
| ENOENT.                    (* [readFileSync] on a missing file *)

Inductive result (A : Type) : Type :=
| Ok (a : A)
| Throw (e : exn).
Arguments Ok {A} a.
Arguments Throw {A} e.

Definition bind {A B : Type} (r : result A) (k : A -> result B) : result B :=
  match r with
  | Ok a => k a
  | Throw e => Throw e
  end.

Declare Scope js_scope.
Delimit Scope js_scope with js.
Notation "x <- r ;; k" := (bind r (fun x => k))
  (at level 61, r at next level, right associativity) : js_scope.
Notation "' p <- r ;; k" := (bind r (fun x => let p := x in k))
  (at level 61, p pattern, r at next level, right associativity) : js_scope.

(** ** Strings *)

Module Text.

(** The double quote and the line feed, by their codes. *)
Definition dquote : ascii := "034"%char.
Definition LF : ascii := "010"%char.

Fixpoint drop (n : nat) (s : string) : string :=
  match n, s with
  | O, _ => s
  | S n', String _ s' => drop n' s'
  | S _, EmptyString => EmptyString
  end.

Fixpoint take (n : nat) (s : string) : string :=
  match n, s with
  | S n', String a s' => String a (take n' s')
  | _, _ => EmptyString
  end.

(** [s.indexOf(c)]: the position of the first [c], or [-1]. *)
Fixpoint indexOf (s : string) (c : ascii) : Z :=
  match s with
  | EmptyString => -1
  | String a s' =>
      if Ascii.eqb a c then 0
      else let i := indexOf s' c in
           if (i =? -1)%Z then (-1)%Z else (i + 1)%Z
  end.

(** [s.substring(i, j)] for [0 <= i <= j], and [s.substring(i)]. *)
Definition substring (s : string) (i j : Z) : string :=
  take (Z.to_nat (j - i)) (drop (Z.to_nat i) s).

Definition substring_from (s : string) (i : Z) : string :=
  drop (Z.to_nat i) s.

(** [s.split(c)] for a one-character separator. *)
Fixpoint split (s : string) (c : ascii) : list string :=
  match s with
  | EmptyString => [EmptyString]
  | String a s' =>
      if Ascii.eqb a c then EmptyString :: split s' c
      else match split s' c with
           | piece :: pieces => String a piece :: pieces
           | [] => [String a EmptyString]
           end
  end.

Fixpoint spaces (n : nat) : string :=
  match n with
  | O => EmptyString
  | S n' => String " " (spaces n')
  end.

(** [p] removed from the front of [s], when [s] starts with [p]. *)
Fixpoint strip_prefix (p s : string) : option string :=
  match p with
  | EmptyString => Some s
  | String a p' =>
      match s with
      | String b s' => if Ascii.eqb a b then strip_prefix p' s' else None
      | EmptyString => None
      end
  end.

(** [c] occurs in [s]. *)
Fixpoint occurs (c : ascii) (s : string) : bool :=
  match s with
  | EmptyString => false
  | String a s' => Ascii.eqb a c || occurs c s'
  end.

End Text.

(** ** Hexadecimal text of a [Buffer] *)

Module Hex.

Definition digit (n : N) : ascii :=
  match n with
  | 0 => "0" | 1 => "1" | 2 => "2" | 3 => "3" | 4 => "4" | 5 => "5"
  | 6 => "6" | 7 => "7" | 8 => "8" | 9 => "9" | 10 => "a" | 11 => "b"
  | 12 => "c" | 13 => "d" | 14 => "e" | _ => "f"
  end%N%char.

(** The value of a hexadecimal digit; letters of either case. *)
Definition value (c : ascii) : option N :=
  let n := N_of_ascii c in
  if ((48 <=? n) && (n <=? 57))%N then Some (n - 48)%N
  else if ((97 <=? n) && (n <=? 102))%N then Some (n - 87)%N
  else if ((65 <=? n) && (n <=? 70))%N then Some (n - 55)%N
  else None.

Definition of_byte (b : Byte.byte) : string :=
  let n := Byte.to_N b in
  String (digit (n / 16)) (String (digit (n mod 16)) EmptyString).

(** [buffer.toString("hex")]: two lower-case digits for each byte. *)
Fixpoint toString (buffer : list Byte.byte) : string :=
  match buffer with
  | [] => EmptyString
  | b :: rest => of_byte b ++ toString rest
  end.

(** [Buffer.from(s, "hex")]: pairs of digits are decoded up to the first
    pair that is not hexadecimal; a last single character is dropped. *)
Fixpoint from (s : string) : list Byte.byte :=
  match s with
  | String a (String b rest) =>
      match value a, value b with
      | Some hi, Some lo =>
          match Byte.of_N (16 * hi + lo) with
          | Some byte => byte :: from rest
          | None => []
          end
      | _, _ => []
      end
  | _ => []
  end.

End Hex.

(** ** JSON values, [JSON.stringify] and [JSON.parse] *)

Module JSON.
Import Text.

#[local] Set Warnings "-register-all".

Inductive json : Type :=
| JNull
| JBool (b : bool)
| JNum (n : Z)
| JStr (s : string)
| JArr (items : list json)
| JObj (fields : list (string * json)).

(** An object is the list of its own properties, in insertion order. *)
Definition object : Type := list (string * json).

(** [o[k]]: the own property [k], or [undefined]. *)
Fixpoint obj_get (o : object) (k : string) : option json :=
  match o with
  | [] => None
  | (k', v) :: rest => if String.eqb k' k then Some v else obj_get rest k
  end.

(** [o[k] = v]: an existing property keeps its place, a new one goes last. *)
Fixpoint obj_set (o : object) (k : string) (v : json) : object :=
  match o with
  | [] => [(k, v)]
  | (k', v') :: rest =>
      if String.eqb k' k then (k', v) :: rest
      else (k', v') :: obj_set rest k v
  end.

(** [Object.keys(o)]. *)
Definition keys (o : object) : list string := map fst o.

(** [{...target, ...source}] once [target] has been copied: every own
    property of [source] is set on the copy, in order. *)
Definition spread (target source : object) : object :=
  fold_left (fun acc kv => obj_set acc (fst kv) (snd kv)) source target.

(** *** Printing *)

(** The text of a number: [String(n)] for an integer. *)
Definition number_to_string (n : Z) : string :=
  match n with
  | Z0 => "0"
  | Zpos p => NilEmpty.string_of_uint (N.to_uint (Npos p))
  | Zneg p => String "-" (NilEmpty.string_of_uint (N.to_uint (Npos p)))
  end.

Definition hex2 (c : ascii) : string :=
  let n := N_of_ascii c in
  String (Hex.digit (n / 16)) (String (Hex.digit (n mod 16)) EmptyString).

(** One character inside a quoted string (QuoteJSONString). *)
Definition escape_char (c : ascii) : string :=
  if Ascii.eqb c dquote then String "\" (String dquote EmptyString)
  else if Ascii.eqb c "\" then "\\"
  else if Ascii.eqb c "008" then "\b"
  else if Ascii.eqb c "012" then "\f"
  else if Ascii.eqb c "010" then "\n"
  else if Ascii.eqb c "013" then "\r"
  else if Ascii.eqb c "009" then "\t"
  else if (N_of_ascii c <? 32)%N then "\u00" ++ hex2 c
  else String c EmptyString.

Fixpoint escape (s : string) : string :=
  match s with
  | EmptyString => EmptyString
  | String c s' => escape_char c ++ escape s'
  end.

Definition quote (s : string) : string :=
  String dquote (escape s ++ String dquote EmptyString).

(** The line break and indentation that [gap] asks for: nothing when the
    gap is empty. *)
Definition nl (gap indent : nat) : string :=
  match gap with
  | O => EmptyString
  | S _ => String LF (spaces indent)
  end.

Definition colon (gap : nat) : string :=
  match gap with
  | O => ":"
  | S _ => ": "
  end.

(** SerializeJSONProperty with a gap of [gap] spaces at indentation
    [indent]. *)
Fixpoint serialize (gap indent : nat) (v : json) {struct v} : string :=
  match v with
  | JNull => "null"
  | JBool true => "true"
  | JBool false => "false"
  | JNum n => number_to_string n
  | JStr s => quote s
  | JArr [] => "[]"
  | JArr items =>
      "[" ++ nl gap (indent + gap)
      ++ String.concat ("," ++ nl gap (indent + gap))
           (map (serialize gap (indent + gap)) items)
      ++ nl gap indent ++ "]"
  | JObj [] => "{}"
  | JObj fields =>
      "{" ++ nl gap (indent + gap)
      ++ String.concat ("," ++ nl gap (indent + gap))
           (map (fun kv => quote (fst kv) ++ colon gap
                           ++ serialize gap (indent + gap) (snd kv)) fields)
      ++ nl gap indent ++ "}"
  end.

(** [JSON.stringify(v, null, gap)]; [JSON.stringify(v)] is the gap 0. *)
Definition stringify (v : json) (gap : nat) : string := serialize gap 0 v.

(** *** Parsing *)

Definition is_ws (c : ascii) : bool :=
  Ascii.eqb c " " || Ascii.eqb c "009" || Ascii.eqb c "010" || Ascii.eqb c "013".

Fixpoint skip_ws (s : string) : string :=
  match s with
  | String c s' => if is_ws c then skip_ws s' else s
  | EmptyString => EmptyString
  end.

Definition unescape (c : ascii) : option ascii :=
  if Ascii.eqb c dquote then Some dquote
  else if Ascii.eqb c "\" then Some "\"%char
  else if Ascii.eqb c "/" then Some "/"%char
  else if Ascii.eqb c "b" then Some "008"%char
  else if Ascii.eqb c "f" then Some "012"%char
  else if Ascii.eqb c "n" then Some "010"%char
  else if Ascii.eqb c "r" then Some "013"%char
  else if Ascii.eqb c "t" then Some "009"%char
  else None.

(** The character of a four-digit unicode escape, when its code is below
    256. *)
Definition unicode_escape (a b c d : ascii) : option ascii :=
  match Hex.value a, Hex.value b, Hex.value c, Hex.value d with
  | Some x3, Some x2, Some x1, Some x0 =>
      let code := (((x3 * 16 + x2) * 16 + x1) * 16 + x0)%N in
      if (code <? 256)%N then Some (ascii_of_N code) else None
  | _, _, _, _ => None
  end.

Definition cons_char (c : ascii) (r : option (string * string))
  : option (string * string) :=
  match r with
  | Some (s, rest) => Some (String c s, rest)
  | None => None
  end.

(** The characters of a string literal after its opening quote, and the
    text after its closing quote. *)
Fixpoint parse_chars (s : string) : option (string * string) :=
  match s with
  | EmptyString => None
  | String c s' =>
      if Ascii.eqb c dquote then Some (EmptyString, s')
      else if Ascii.eqb c "\" then
        match s' with
        | String e s'' =>
            if Ascii.eqb e "u" then
              match s'' with
              | String h3 (String h2 (String h1 (String h0 r))) =>
                  match unicode_escape h3 h2 h1 h0 with
                  | Some ch => cons_char ch (parse_chars r)
                  | None => None
                  end
              | _ => None
              end
            else
              match unescape e with
              | Some ch => cons_char ch (parse_chars s'')
              | None => None
              end
        | EmptyString => None
        end
      else if (N_of_ascii c <? 32)%N then None
      else cons_char c (parse_chars s')
  end.

Definition digit_of (c : ascii) : option (uint -> uint) :=
  if Ascii.eqb c "0" then Some D0
  else if Ascii.eqb c "1" then Some D1
  else if Ascii.eqb c "2" then Some D2
  else if Ascii.eqb c "3" then Some D3
  else if Ascii.eqb c "4" then Some D4
  else if Ascii.eqb c "5" then Some D5
  else if Ascii.eqb c "6" then Some D6
  else if Ascii.eqb c "7" then Some D7
  else if Ascii.eqb c "8" then Some D8
  else if Ascii.eqb c "9" then Some D9
  else None.

(** The longest run of decimal digits at the front of [s]. *)
Fixpoint read_digits (s : string) : uint * string :=
  match s with
  | String c s' =>
      match digit_of c with
      | Some d => let (u, rest) := read_digits s' in (d u, rest)
      | None => (Nil, s)
      end
  | EmptyString => (Nil, EmptyString)
  end.

(** The integer part of a number: a single [0], or digits that start with
    a non-zero digit. *)
Definition parse_natural (s : string) : option (Z * string) :=
  match s with
  | String c s' =>
      if Ascii.eqb c "0" then Some (0%Z, s')
      else match read_digits s with
           | (Nil, _) => None
           | (u, rest) => Some (Z.of_N (N.of_uint u), rest)
           end
  | EmptyString => None
  end.

Definition parse_number (s : string) : option (Z * string) :=
  match s with
  | String c s' =>
      if Ascii.eqb c "-" then
        match parse_natural s' with
        | Some (n, rest) => Some ((- n)%Z, rest)
        | None => None
        end
      else parse_natural s
  | EmptyString => None
  end.

(** An object built from the members of an object literal: a repeated key
    keeps its first place and its last value. *)
Definition of_members (members : list (string * json)) : object :=
  spread [] members.

(** Recursive descent; [fuel] bounds the number of nested calls. *)
Fixpoint parse_value (fuel : nat) (s : string) {struct fuel}
  : option (json * string) :=
  match fuel with
  | O => None
  | S fuel' =>
      match skip_ws s with
      | EmptyString => None
      | String c r =>
          if Ascii.eqb c "n" then
            option_map (pair JNull) (strip_prefix "ull" r)
          else if Ascii.eqb c "t" then
            option_map (pair (JBool true)) (strip_prefix "rue" r)
          else if Ascii.eqb c "f" then
            option_map (pair (JBool false)) (strip_prefix "alse" r)
          else if Ascii.eqb c dquote then
            match parse_chars r with
            | Some (str, rest) => Some (JStr str, rest)
            | None => None
            end
          else if Ascii.eqb c "[" then
            match skip_ws r with
            | String c' r' =>
                if Ascii.eqb c' "]" then Some (JArr [], r')
                else match parse_elements fuel' r with
                     | Some (items, rest) => Some (JArr items, rest)
                     | None => None
                     end
            | EmptyString => None
            end
          else if Ascii.eqb c "{" then
            match skip_ws r with
            | String c' r' =>
                if Ascii.eqb c' "}" then Some (JObj [], r')
                else match parse_members fuel' r with
                     | Some (members, rest) =>
                         Some (JObj (of_members members), rest)
                     | None => None
                     end
            | EmptyString => None
            end
          else
            match parse_number (String c r) with
            | Some (n, rest) => Some (JNum n, rest)
            | None => None
            end
      end
  end

with parse_elements (fuel : nat) (s : string) {struct fuel}
  : option (list json * string) :=
  match fuel with
  | O => None
  | S fuel' =>
      match parse_value fuel' s with
      | None => None
      | Some (v, r) =>
          match skip_ws r with
          | String c r' =>
              if Ascii.eqb c "," then
                match parse_elements fuel' r' with
                | Some (vs, rest) => Some (v :: vs, rest)
                | None => None
                end
              else if Ascii.eqb c "]" then Some ([v], r')
              else None
          | EmptyString => None
          end
      end
  end

with parse_members (fuel : nat) (s : string) {struct fuel}
  : option (list (string * json) * string) :=
  match fuel with
  | O => None
  | S fuel' =>
      match skip_ws s with
      | String c r =>
          if Ascii.eqb c dquote then
            match parse_chars r with
            | None => None
            | Some (key, r1) =>
                match skip_ws r1 with
                | String c1 r2 =>
                    if Ascii.eqb c1 ":" then
                      match parse_value fuel' r2 with
                      | None => None
                      | Some (v, r3) =>
                          match skip_ws r3 with
                          | String c3 r4 =>
                              if Ascii.eqb c3 "," then
                                match parse_members fuel' r4 with
                                | Some (ms, rest) => Some ((key, v) :: ms, rest)
                                | None => None
                                end
                              else if Ascii.eqb c3 "}" then Some ([(key, v)], r4)
                              else None
                          | EmptyString => None
                          end
                      end
                    else None
                | EmptyString => None
                end
            end
          else None
      | EmptyString => None
      end
  end.

(** [JSON.parse(text)]: one value, with nothing but white space after it.
    No call of the parser returns without consuming a character, so the
    length of the text is enough fuel. *)
Definition parse (text : string) : result json :=
  match parse_value (S (String.length text)) text with
  | Some (v, rest) =>
      match skip_ws rest with
      | EmptyString => Ok v
      | String _ _ => Throw SyntaxError
      end
  | None => Throw SyntaxError
  end.

(** [a === b] for the values met here: primitives are equal by value; an
    array or an object is equal only to itself, and a value parsed from
    the file is never the caller's. [None] is [undefined]. *)
Definition strict_equal (a b : option json) : bool :=
  match a, b with
  | None, None => true
  | Some JNull, Some JNull => true
  | Some (JBool x), Some (JBool y) => Bool.eqb x y
  | Some (JNum x), Some (JNum y) => Z.eqb x y
  | Some (JStr x), Some (JStr y) => String.eqb x y
  | _, _ => false
  end.

(** *** Objects without repeated keys *)

Fixpoint distinct (l : list string) : bool :=
  match l with
  | [] => true
  | k :: rest => negb (existsb (String.eqb k) rest) && distinct rest
  end.

Fixpoint well_formed (v : json) : bool :=
  match v with
  | JArr items => forallb well_formed items
  | JObj fields =>
      distinct (keys fields) && forallb (fun kv => well_formed (snd kv)) fields
  | _ => true
  end.

(** *** Vocabulary of the round-trip proof *)

(** A text of white space only. *)
Fixpoint blank (w : string) : bool :=
  match w with
  | EmptyString => true
  | String c w' => is_ws c && blank w'
  end.

(** The text does not go on with a digit. *)
Definition no_digit_head (s : string) : Prop :=
  match s with
  | String c _ => digit_of c = None
  | EmptyString => True
  end.

(** The size of a value bounds the fuel that parsing its text takes. *)
Fixpoint size (v : json) : nat :=
  match v with
  | JArr items => S (fold_right (fun x n => S (size x + n)) 0 items)
  | JObj fields => S (fold_right (fun kv n => S (size (snd kv) + n)) 0 fields)
  | _ => 1
  end.

Definition sizes (items : list json) : nat :=
  fold_right (fun x n => S (size x + n)) 0 items.

Definition member_sizes (fields : object) : nat :=
  fold_right (fun kv n => S (size (snd kv) + n)) 0 fields.

(** Induction on values, with the hypothesis for every element and for
    every property value. *)
Fixpoint json_induction (P : json -> Prop)
         (Hnull : P JNull) (Hbool : forall b, P (JBool b))
         (Hnum : forall n, P (JNum n)) (Hstr : forall s, P (JStr s))
         (Harr : forall items, Forall P items -> P (JArr items))
         (Hobj : forall fields, Forall (fun kv => P (snd kv)) fields -> P (JObj fields))
         (v : json) {struct v} : P v :=
  match v with
  | JNull => Hnull
  | JBool b => Hbool b
  | JNum n => Hnum n
  | JStr s => Hstr s
  | JArr items =>
      Harr items
        ((fix all (l : list json) : Forall P l :=
            match l with
            | [] => Forall_nil P
            | x :: l' =>
                Forall_cons x
                  (json_induction P Hnull Hbool Hnum Hstr Harr Hobj x) (all l')
            end) items)
  | JObj fields =>
      Hobj fields
        ((fix all (l : list (string * json)) : Forall (fun kv => P (snd kv)) l :=
            match l with
            | [] => Forall_nil _
            | kv :: l' =>
                Forall_cons kv
                  (json_induction P Hnull Hbool Hnum Hstr Harr Hobj (snd kv)) (all l')
            end) fields)
  end.

Definition elements_text (gap indent : nat) (items : list json) : string :=
  String.concat ("," ++ nl gap indent) (map (serialize gap indent) items).

Definition member_text (gap indent : nat) (kv : string * json) : string :=
  quote (fst kv) ++ colon gap ++ serialize gap indent (snd kv).

Definition members_text (gap indent : nat) (fields : object) : string :=
  String.concat ("," ++ nl gap indent) (map (member_text gap indent) fields).

(** What the round trip of one value says. *)
Definition reads_back (v : json) : Prop :=
  forall gap indent fuel rest,
    size v <= fuel -> no_digit_head rest ->
    parse_value fuel (serialize gap indent v ++ rest) = Some (v, rest).

End JSON.

(** ** The crypto library

    [node:crypto] is outside the repository; the store is parametric in it.
    [cipher algorithm key iv text] stands for [createCipheriv(algorithm, key,
    iv)] followed by [update(text, "utf8")], [final()] and [getAuthTag()]:
    it yields the ciphertext and the authentication tag.
    [decipher algorithm key iv authTag ciphertext] stands for
    [createDecipheriv(algorithm, key, iv)], [setAuthTag(authTag)],
    [update(ciphertext, undefined, "utf8")] and [final("utf8")]. Each can
    throw. *)

Record CryptoLib : Type := {
  pbkdf2Sync : string -> string -> N -> N -> string -> result (list Byte.byte);
  cipher : string -> list Byte.byte -> list Byte.byte -> string
           -> result (list Byte.byte * list Byte.byte);
  decipher : string -> list Byte.byte -> list Byte.byte -> list Byte.byte
             -> list Byte.byte -> result string
}.

(** The functional law of an authenticated cipher: what [cipher] produced
    under a key and an IV, [decipher] turns back into the text under the
    same key and IV. *)
Definition cipher_correct (lib : CryptoLib) : Prop :=
  forall algorithm key iv text ciphertext authTag,
    cipher lib algorithm key iv text = Ok (ciphertext, authTag) ->
    decipher lib algorithm key iv authTag ciphertext = Ok text.

(** The lengths in bytes that AES-GCM allows for an authentication tag.
    [createDecipheriv] called without the option [authTagLength], as
    [_decryptWithKey] calls it, lets [setAuthTag] take a tag of any of
    them. *)
Definition gcm_tag_length (n : nat) : bool :=
  existsb (Nat.eqb n) [4; 8; 12; 13; 14; 15; 16].

(** A library that checks a tag over the length it is given, as GCM does: a
    tag cut to an allowed length is accepted whenever the whole tag is. *)
Definition accepts_short_tags (lib : CryptoLib) : Prop :=
  forall algorithm key iv authTag ciphertext text n,
    decipher lib algorithm key iv authTag ciphertext = Ok text ->
    gcm_tag_length n = true -> n <= length authTag ->
    decipher lib algorithm key iv (firstn n authTag) ciphertext = Ok text.

(** ** Array methods with a callback that can throw *)

Section Callbacks.
Context {A : Type}.
Local Open Scope js_scope.

(** [l.every(f)] *)
Fixpoint every (f : A -> result bool) (l : list A) : result bool :=
  match l with
  | [] => Ok true
  | x :: rest => b <- f x ;; if b then every f rest else Ok false
  end.

(** [l.filter(f)] *)
Fixpoint filter_r (f : A -> result bool) (l : list A) : result (list A) :=
  match l with
  | [] => Ok []
  | x :: rest =>
      b <- f x ;; kept <- filter_r f rest ;;
      Ok (if b then x :: kept else kept)
  end.

(** [l.map(f)] *)
Fixpoint map_r (f : A -> result A) (l : list A) : result (list A) :=
  match l with
  | [] => Ok []
  | x :: rest => y <- f x ;; ys <- map_r f rest ;; Ok (y :: ys)
  end.

(** [l.find(f)] *)
Fixpoint find_r (f : A -> result bool) (l : list A) : result (option A) :=
  match l with
  | [] => Ok None
  | x :: rest => b <- f x ;; if b then Ok (Some x) else find_r f rest
  end.

End Callbacks.

(** ** The class [JsonDB] *)

Module JsonDB.
Import Text JSON.
Local Open Scope js_scope.

(** The fields of an instance; [dbFile] names the [disk]. *)
Record t : Type := {
  password : option string;
  iterations : N;
  digest : string;
  algorithm : string
}.

Record options : Type := {
  opt_password : option string;
  opt_iterations : option N;
  opt_digest : option string;
  opt_algorithm : option string
}.

Definition disk : Type := option string.

(** The values drawn from [randomBytes] by one write: [randomBytes(16)]
    for the salt and [randomBytes(12)] for the IV. *)
Record entropy : Type := {
  salt_bytes : list Byte.byte;
  iv_bytes : list Byte.byte
}.

Record payload : Type := {
  oldPassword : option string;
  newPassword : option string
}.

(** The object passed to [find], a [Partial<Document>]: its own properties
    in order, each holding a JSON value or [undefined] ([None]). *)
Definition partial : Type := list (string * option json).

(** [Object.keys(query)]. *)
Definition partial_keys (query : partial) : list string := map fst query.

(** [query[key]]: the value of the own property [key]; [undefined] when it
    holds [undefined] or when there is no such property. *)
Fixpoint partial_get (query : partial) (key : string) : option json :=
  match query with
  | [] => None
  | (k, v) :: rest => if String.eqb k key then v else partial_get rest key
  end.

Definition set_password (this : t) (p : option string) : t :=
  {| password := p;
     iterations := iterations this;
     digest := digest this;
     algorithm := algorithm this |}.

(** [a || b] on an optional string: the empty string is falsy. *)
Definition or_string (a : option string) (b : option string) : option string :=
  match a with
  | Some s => if String.eqb s "" then b else Some s
  | None => b
  end.

(** [a || b] on an optional number: zero is falsy. *)
Definition or_number (a : option N) (b : N) : N :=
  match a with
  | Some 0%N | None => b
  | Some n => n
  end.

(** The password under [if (this.password)]: [Some] when it is truthy. *)
Definition truthy (p : option string) : option string := or_string p None.

Definition readFileSync (d : disk) : result string :=
  match d with
  | Some text => Ok text
  | None => Throw ENOENT
  end.

(** The array index that a key spells, if it spells one. *)
Definition index_of_key (key : string) : option nat :=
  match parse_natural key with
  | Some (n, EmptyString) => Some (Z.to_nat n)
  | _ => None
  end.

(** [v[key]], when it is a JSON value.  An inherited member counts as
    absent here: it is a function or a prototype object, which no JSON value
    is strictly equal to; [same_field] tells it from [undefined]. *)
Definition get (v : json) (key : string) : result (option json) :=
  match v with
  | JObj o => Ok (obj_get o key)
  | JNull => Throw TypeError
  | JArr items =>
      if String.eqb key "length" then Ok (Some (JNum (Z.of_nat (length items))))
      else match index_of_key key with
           | Some i => Ok (nth_error items i)
           | None => Ok None
           end
  | JStr s =>
      if String.eqb key "length" then Ok (Some (JNum (Z.of_nat (String.length s))))
      else match index_of_key key with
           | Some i => Ok (option_map (fun c => JStr (String c EmptyString))
                             (String.get i s))
           | None => Ok None
           end
  | JBool _ | JNum _ => Ok None
  end.

(** The receiver of [db.push], [db.filter] and [db.map] must be an
    array. *)
Definition as_array (db : json) : result (list json) :=
  match db with
  | JArr items => Ok items
  | _ => Throw TypeError
  end.

(** The own properties copied by [{...v}].  In [update] only a value with
    an [id] property is spread, and that is an object. *)
Definition own_properties (v : json) : object :=
  match v with
  | JObj o => o
  | _ => []
  end.

Section Methods.
Variable lib : CryptoLib.

(** The built-in prototypes of the runtime: [inherits v key] tells whether
    the prototype chain of [v] defines a member named [key] ([toString],
    [hasOwnProperty], [push] for an array, ...).  Such a member is a
    function or a prototype object. *)
Variable inherits : json -> string -> bool.

(** Derives a 32-byte key using PBKDF2 from the password and salt. *)
Definition _deriveKey (this : t) (password salt : string)
  : result (list Byte.byte) :=
  pbkdf2Sync lib password salt (iterations this) 32 (digest this).

(** Encrypts [text] under [key]; [iv] is the [randomBytes(12)] drawn for it.
    The result is [iv:authTag:ciphertext], each part in hexadecimal. *)
Definition _encryptWithKey (this : t) (iv : list Byte.byte)
           (text : string) (key : list Byte.byte) : result string :=
  '(encrypted, authTag) <- cipher lib (algorithm this) key iv text ;;
  Ok (Hex.toString iv ++ ":" ++ Hex.toString authTag ++ ":"
      ++ Hex.toString encrypted).

(** Decrypts a text of the form [iv:authTag:ciphertext] under [key]. *)
Definition _decryptWithKey (this : t) (encryptedText : string)
           (key : list Byte.byte) : result string :=
  let parts := split encryptedText ":" in
  if negb (length parts =? 3)%nat then
    Throw (Error "Invalid encrypted text format")
  else
    let iv := Hex.from (nth 0 parts "") in
    let authTag := Hex.from (nth 1 parts "") in
    let ciphertext := Hex.from (nth 2 parts "") in
    decipher lib (algorithm this) key iv authTag ciphertext.

(** Reads and decrypts the database file. *)
Definition _readDB (this : t) (d : disk) : result json :=
  fileData <- readFileSync d ;;
  match truthy (password this) with
  | Some pw =>
      let firstColon := indexOf fileData ":" in
      if (firstColon =? -1)%Z then Throw (Error "Invalid file format")
      else
        let salt := substring fileData 0 firstColon in
        let encryptedPart := substring_from fileData (firstColon + 1) in
        key <- _deriveKey this pw salt ;;
        text <- _decryptWithKey this encryptedPart key ;;
        JSON.parse text
  | None => JSON.parse fileData
  end.

(** Encrypts and writes the database file: the disk after [_writeDB(data)]. *)
Definition _writeDB (this : t) (rnd : entropy) (data : json) : result disk :=
  let stringData := JSON.stringify data 2 in
  match truthy (password this) with
  | Some pw =>
      let salt := Hex.toString (salt_bytes rnd) in
      key <- _deriveKey this pw salt ;;
      encrypted <- _encryptWithKey this (iv_bytes rnd) stringData key ;;
      let dataToStore := salt ++ ":" ++ encrypted in
      Ok (Some dataToStore)
  | None => Ok (Some stringData)
  end.

(** [new JsonDB(dbFile, options)]: the instance and the disk. *)
Definition constructor (o : options) (rnd : entropy) (d : disk)
  : result (t * disk) :=
  let this :=
    {| password := or_string (opt_password o) None;
       iterations := or_number (opt_iterations o) 100000;
       digest := match or_string (opt_digest o) (Some "sha256") with
                 | Some s => s | None => "sha256" end;
       algorithm := match or_string (opt_algorithm o) (Some "aes-256-gcm") with
                    | Some s => s | None => "aes-256-gcm" end |} in
  match d with
  | None =>
      let initialData := JSON.stringify (JArr []) 0 in
      match truthy (password this) with
      | Some pw =>
          let salt := Hex.toString (salt_bytes rnd) in
          key <- _deriveKey this pw salt ;;
          encrypted <- _encryptWithKey this (iv_bytes rnd) initialData key ;;
          let dataToStore := salt ++ ":" ++ encrypted in
          Ok (this, Some dataToStore)
      | None => Ok (this, Some initialData)
      end
  | Some _ => Ok (this, d)
  end.

(** Inserts a new document; [now] is the value of [Date.now()].  The answer
    is the document with its id, and the disk. *)
Definition insert (this : t) (rnd : entropy) (now : Z) (document : object)
           (d : disk) : result (object * disk) :=
  db <- _readDB this d ;;
  let document := obj_set document "id" (JNum now) in
  items <- as_array db ;;
  d' <- _writeDB this rnd (JArr (items ++ [JObj document])) ;;
  Ok (document, d').

(** [doc[key] === value].  Where [get] finds a value, it is compared with
    [value].  Where it finds none, [doc[key]] is an inherited member, which
    is equal neither to a JSON value nor to [undefined], or else it is
    [undefined], which is equal to [undefined] only. *)
Definition same_field (doc : json) (key : string) (value : option json)
  : result bool :=
  x <- get doc key ;;
  Ok (match x with
      | Some _ => strict_equal x value
      | None => negb (inherits doc key) && strict_equal None value
      end).

(** The callback of [find]: for every key of the query,
    [doc[key] === query[key]]. *)
Definition matches (query : partial) (doc : json) : result bool :=
  every (fun key => same_field doc key (partial_get query key))
        (partial_keys query).

(** Finds documents by query; without an argument the query is [{}]. *)
Definition find (this : t) (query : option partial) (d : disk)
  : result (list json) :=
  let query := match query with Some q => q | None => [] end in
  db <- _readDB this d ;;
  items <- as_array db ;;
  filter_r (matches query) items.

(** [doc.id === id] *)
Definition has_id (id : json) (doc : json) : result bool :=
  x <- get doc "id" ;; Ok (strict_equal x (Some id)).

(** Updates a document by id.  The lookup after the write cannot throw:
    [has_id] has answered on every element before. *)
Definition update (this : t) (rnd : entropy) (id : json) (updates : object)
           (d : disk) : result (option json * disk) :=
  db <- _readDB this d ;;
  items <- as_array db ;;
  db <- map_r (fun doc =>
                 b <- has_id id doc ;;
                 Ok (if b
                     then JObj (spread (spread [] (own_properties doc)) updates)
                     else doc)) items ;;
  d' <- _writeDB this rnd (JArr db) ;;
  found <- find_r (has_id id) db ;;
  Ok (found, d').

(** Deletes a document by id. *)
Definition delete (this : t) (rnd : entropy) (id : json) (d : disk)
  : result (bool * disk) :=
  db <- _readDB this d ;;
  items <- as_array db ;;
  newDB <- filter_r (fun doc => b <- has_id id doc ;; Ok (negb b)) items ;;
  d' <- _writeDB this rnd (JArr newDB) ;;
  Ok (negb (length items =? length newDB)%nat, d').

(** Changes the password: the outcome, the instance and the disk after
    [changePassword(payload)]; [None] is a call without a payload. *)
Definition changePassword (this : t) (rnd : entropy) (p : option payload)
           (d : disk) : result unit * t * disk :=
  let oldPassword := match p with Some p => oldPassword p | None => None end in
  let newPassword := match p with Some p => newPassword p | None => None end in
  let currentPassword := password this in
  let this := set_password this oldPassword in
  match _readDB this d with
  | Throw _ =>
      let this := set_password this currentPassword in
      (Throw (Error "Invalid old password. Password change aborted."),
       this, d)
  | Ok data =>
      let this := set_password this newPassword in
      match _writeDB this rnd data with
      | Ok d' => (Ok tt, this, d')
      | Throw e => (Throw e, this, d)
      end
  end.

End Methods.

End JsonDB.

(** ** A concrete library to run the store on

    Key derivation joins password and salt; the ciphertext is the text
    itself and the tag is key, IV and ciphertext together, which [decipher]
    recomputes and compares.  It has the functional behaviour of an
    authenticated cipher and no secrecy; the store is run on concrete files
    with it. *)

Module ToyCrypto.

Fixpoint bytes_eqb (a b : list Byte.byte) : bool :=
  match a, b with
  | [], [] => true
  | x :: a', y :: b' => Byte.eqb x y && bytes_eqb a' b'
  | _, _ => false
  end.

Definition pbkdf2Sync (password salt : string) (iterations keylen : N)
           (digest : string) : result (list Byte.byte) :=
  Ok (list_byte_of_string (password ++ salt)).

Definition cipher (algorithm : string) (key iv : list Byte.byte)
           (text : string) : result (list Byte.byte * list Byte.byte) :=
  let ciphertext := list_byte_of_string text in
  Ok (ciphertext, key ++ iv ++ ciphertext)%list.

Definition decipher (algorithm : string) (key iv authTag ciphertext : list Byte.byte)
  : result string :=
  if bytes_eqb authTag (key ++ iv ++ ciphertext)%list
  then Ok (string_of_list_byte ciphertext)
  else Throw (Error "Unsupported state or unable to authenticate data").

Definition lib : CryptoLib :=
  Build_CryptoLib pbkdf2Sync cipher decipher.

End ToyCrypto.

(** ** A concrete library with the tag lengths of GCM

    As [ToyCrypto], with a tag of sixteen bytes, which [decipher] checks
    over the length of the tag it is given, for the lengths that GCM
    allows. *)

Module ToyGcm.

(** Sixteen bytes made of key, IV and ciphertext. *)
Definition tag (key iv ciphertext : list Byte.byte) : list Byte.byte :=
  firstn 16 (key ++ iv ++ ciphertext ++ repeat Byte.x00 16)%list.

Definition cipher (algorithm : string) (key iv : list Byte.byte)
           (text : string) : result (list Byte.byte * list Byte.byte) :=
  let ciphertext := list_byte_of_string text in
  Ok (ciphertext, tag key iv ciphertext).

Definition decipher (algorithm : string) (key iv authTag ciphertext : list Byte.byte)
  : result string :=
  if gcm_tag_length (length authTag)
     && ToyCrypto.bytes_eqb authTag
          (firstn (length authTag) (tag key iv ciphertext))
  then Ok (string_of_list_byte ciphertext)
  else Throw (Error "Unsupported state or unable to authenticate data").

Definition lib : CryptoLib :=
  Build_CryptoLib ToyCrypto.pbkdf2Sync cipher decipher.

End ToyGcm.

(** ** Vocabulary of the properties *)

Module Spec.
Import JSON.

(** The document's [id] is strictly equal to [id]. *)
Definition id_is (id : json) (doc : object) : bool :=
  strict_equal (obj_get doc "id") (Some id).

(** Strict equality of two JSON values, as the specification uses it for
    field values: the same primitive on both sides. *)
Inductive same_primitive : json -> json -> Prop :=
| same_null : same_primitive JNull JNull
| same_bool b : same_primitive (JBool b) (JBool b)
| same_num n : same_primitive (JNum n) (JNum n)
| same_str s : same_primitive (JStr s) (JStr s).

(** Every field of the query is present in the document and strictly equal
    to the document's field. *)
Definition doc_matches (query doc : object) : Prop :=
  forall k v, obj_get query k = Some v ->
              exists w, obj_get doc k = Some w /\ same_primitive w v.

(** An object of JSON values as a query: every property holds its value. *)
Definition with_values (query : object) : JsonDB.partial :=
  map (fun kv => (fst kv, Some (snd kv))) query.

(** The same for a query that can hold [undefined]: a field of the query
    with a value is present in the document and strictly equal to the
    document's field; a field of the query that holds [undefined] names no
    member of the document, own or inherited. *)
Definition partial_matches (inherits : json -> string -> bool)
           (query : JsonDB.partial) (doc : object) : Prop :=
  forall k, In k (JsonDB.partial_keys query) ->
    match JsonDB.partial_get query k with
    | Some v => exists w, obj_get doc k = Some w /\ same_primitive w v
    | None => obj_get doc k = None /\ inherits (JObj doc) k = false
    end.

(** The document has no member [k], own or inherited. *)
Definition lacks (inherits : json -> string -> bool) (k : string)
           (doc : object) : bool :=
  match obj_get doc k with
  | Some _ => false
  | None => negb (inherits (JObj doc) k)
  end.

(** No two documents share an [id]. *)
Definition unique_ids (docs : list object) : Prop :=
  NoDup (map (fun doc => obj_get doc "id") docs).

(** [doc'] is [doc] with the fields of [updates] put over it: a field named
    in [updates] has the value from [updates], any other field is as in
    [doc]. *)
Definition merged (doc updates doc' : object) : Prop :=
  forall k, obj_get doc' k = match obj_get updates k with
                             | Some v => Some v
                             | None => obj_get doc k
                             end.

(** [updates] leaves the [id] as it is: it has no [id] field, or one that is
    strictly equal to [id]. *)
Definition keeps_id (id : json) (updates : object) : Prop :=
  obj_get updates "id" = None
  \/ strict_equal (obj_get updates "id") (Some id) = true.

(** The query test of [find] on an object. *)
Definition matchesb (inherits : json -> string -> bool)
           (query : JsonDB.partial) (doc : object) : bool :=
  forallb (fun key =>
             match obj_get doc key with
             | Some x => strict_equal (Some x) (JsonDB.partial_get query key)
             | None => negb (inherits (JObj doc) key)
                       && strict_equal None (JsonDB.partial_get query key)
             end)
          (JsonDB.partial_keys query).

(** A hexadecimal text with its letters in upper case. *)
Definition upper_digit (c : ascii) : ascii :=
  let n := N_of_ascii c in
  if ((97 <=? n) && (n <=? 102))%N then ascii_of_N (n - 32) else c.

Fixpoint upper (s : string) : string :=
  match s with
  | EmptyString => EmptyString
  | String c s' => String (upper_digit c) (upper s')
  end.

(** The text [s] with the character at position [i] replaced by [c]. *)
Fixpoint alter (i : nat) (c : ascii) (s : string) : string :=
  match s, i with
  | EmptyString, _ => EmptyString
  | String _ s', O => String c s'
  | String a s', S i' => String a (alter i' c s')
  end.

(** A text of hexadecimal digits only. *)
Fixpoint all_hex (s : string) : bool :=
  match s with
  | EmptyString => true
  | String c s' => match Hex.value c with
                   | Some _ => all_hex s'
                   | None => false
                   end
  end.

End Spec.

(** ** Sample stores *)

Module Sample.
Import JSON JsonDB.

Definition plain : JsonDB.t :=
  {| password := None; iterations := 100000;
     digest := "sha256"; algorithm := "aes-256-gcm" |}.

Definition locked : JsonDB.t := set_password plain (Some "old").

Definition open_locked : options :=
  {| opt_password := Some "old"; opt_iterations := None;
     opt_digest := None; opt_algorithm := None |}.

(** Sixteen bytes for the salt and twelve for the IV. *)
Definition rnd : entropy :=
  {| salt_bytes := [Byte.x3a; Byte.x91; Byte.x0c; Byte.xf4; Byte.x52; Byte.xe7;
                    Byte.x18; Byte.xbd; Byte.x66; Byte.x2f; Byte.xa0; Byte.x7b;
                    Byte.xc3; Byte.x4d; Byte.x85; Byte.x1e];
     iv_bytes := [Byte.x9f; Byte.x02; Byte.xd6; Byte.x4b; Byte.x73; Byte.xe1;
                  Byte.x08; Byte.xac; Byte.x35; Byte.xc7; Byte.x5a; Byte.xb0] |}.

(** The member names of [Object.prototype].  The documents of the sample
    stores are objects: they inherit these members and no others. *)
Definition object_prototype : list string :=
  ["constructor"; "hasOwnProperty"; "isPrototypeOf"; "propertyIsEnumerable";
   "toLocaleString"; "toString"; "valueOf"; "__proto__";
   "__defineGetter__"; "__defineSetter__"; "__lookupGetter__";
   "__lookupSetter__"].

Definition inherits (v : json) (key : string) : bool :=
  existsb (String.eqb key) object_prototype.

Definition alice : object :=
  [("id", JNum 1701234567890); ("name", JStr "Alice"); ("age", JNum 25)].

Definition bob : object :=
  [("id", JNum 1701234567891); ("name", JStr "Bob"); ("age", JNum 31)].

Definition store : json := JArr [JObj alice; JObj bob].

Definition plain_disk : disk := Some (stringify store 2).

Definition locked_disk : disk :=
  match _writeDB ToyCrypto.lib locked rnd store with
  | Ok d => d
  | Throw _ => None
  end.

Definition wrong_then_new : payload :=
  {| oldPassword := Some "wrong"; newPassword := Some "new" |}.

Definition old_then_nothing : payload :=
  {| oldPassword := Some "old"; newPassword := None |}.

End Sample.

(* ================================================================== *)
(** * Part II: properties *)
(* ================================================================== *)

(** ** Strings *)

Module TextFacts.
Import Text.

Lemma app_assoc (a b c : string) : (a ++ b) ++ c = a ++ (b ++ c).
Proof. induction a as [|x a IH]; simpl; [reflexivity | now rewrite IH]. Qed.

Lemma app_nil_r (a : string) : a ++ "" = a.
Proof. induction a as [|x a IH]; simpl; [reflexivity | now rewrite IH]. Qed.

Lemma length_app (a b : string) :
  String.length (a ++ b) = String.length a + String.length b.
Proof. induction a as [|x a IH]; simpl; [reflexivity | now rewrite IH]. Qed.

Lemma occurs_app c a b : occurs c (a ++ b) = occurs c a || occurs c b.
Proof.
  induction a as [|x a IH]; simpl; [reflexivity|].
  now rewrite IH, orb_assoc.
Qed.

Lemma indexOf_lower s c : (-1 <= indexOf s c)%Z.
Proof.
  induction s as [|a s IH]; simpl; [lia|].
  destruct (Ascii.eqb a c); [lia|].
  destruct (Z.eqb_spec (indexOf s c) (-1)); lia.
Qed.

(** [indexOf] answers [-1] exactly when the character does not occur. *)
Lemma indexOf_absent s c : indexOf s c = (-1)%Z <-> occurs c s = false.
Proof.
  induction s as [|a s IH]; simpl; [tauto|].
  destruct (Ascii.eqb a c); simpl; [split; discriminate|].
  pose proof (indexOf_lower s c).
  destruct (Z.eqb_spec (indexOf s c) (-1)) as [E|E].
  - split; intros _; [now apply IH | reflexivity].
  - split; intros H'; [lia | now apply IH in H'].
Qed.

Lemma indexOf_first a b c :
  occurs c a = false ->
  indexOf (a ++ String c b) c = Z.of_nat (String.length a).
Proof.
  induction a as [|x a IH]; simpl; intros H.
  - now rewrite Ascii.eqb_refl.
  - apply orb_false_iff in H as [Hx Ha]. rewrite Hx, (IH Ha).
    destruct (Z.eqb_spec (Z.of_nat (String.length a)) (-1)); lia.
Qed.

Lemma take_app a b : take (String.length a) (a ++ b) = a.
Proof. induction a as [|x a IH]; simpl; [now destruct b | now rewrite IH]. Qed.

Lemma split_absent s c : occurs c s = false -> split s c = [s].
Proof.
  induction s as [|a s IH]; simpl; intros H; [reflexivity|].
  apply orb_false_iff in H as [Ha Hs]. now rewrite Ha, (IH Hs).
Qed.

Lemma split_first a b c :
  occurs c a = false -> split (a ++ String c b) c = a :: split b c.
Proof.
  induction a as [|x a IH]; simpl; intros H.
  - now rewrite Ascii.eqb_refl.
  - apply orb_false_iff in H as [Hx Ha]. now rewrite Hx, (IH Ha).
Qed.

(** What [_readDB] computes on [salt:rest] when [salt] has no colon. *)
Lemma substring_salt salt rest c :
  occurs c salt = false ->
  let i := indexOf (salt ++ String c rest) c in
  substring (salt ++ String c rest) 0 i = salt
  /\ substring_from (salt ++ String c rest) (i + 1) = rest.
Proof.
  intros H i. unfold i, substring, substring_from.
  rewrite (indexOf_first _ _ _ H).
  replace (Z.to_nat (Z.of_nat (String.length salt) - 0)) with (String.length salt) by lia.
  replace (Z.to_nat (Z.of_nat (String.length salt) + 1)) with (S (String.length salt)) by lia.
  split.
  - simpl. apply take_app.
  - change (S (String.length salt)) with (String.length (String c salt)).
    clear H i. induction salt as [|x s IH]; simpl; [reflexivity|].
    simpl in IH. exact IH.
Qed.

End TextFacts.

(** ** Hexadecimal text *)

Module HexFacts.
Import Text TextFacts.

Lemma from_of_byte b rest : Hex.from (Hex.of_byte b ++ rest) = b :: Hex.from rest.
Proof. destruct b; reflexivity. Qed.

(** Decoding the hexadecimal text of a buffer gives the buffer back. *)
Lemma from_toString buffer : Hex.from (Hex.toString buffer) = buffer.
Proof.
  induction buffer as [|b l IH]; [reflexivity|].
  cbn [Hex.toString]. now rewrite from_of_byte, IH.
Qed.

Lemma of_byte_no_colon b : occurs ":" (Hex.of_byte b) = false.
Proof. destruct b; reflexivity. Qed.

(** The hexadecimal text of a buffer has no colon. *)
Lemma toString_no_colon buffer : occurs ":" (Hex.toString buffer) = false.
Proof.
  induction buffer as [|b l IH]; [reflexivity|].
  cbn [Hex.toString]. now rewrite occurs_app, of_byte_no_colon, IH.
Qed.

(** The three parts of [iv:authTag:ciphertext] are found again. *)
Lemma split_parts iv authTag ciphertext :
  Text.split (Hex.toString iv ++ ":" ++ Hex.toString authTag ++ ":"
              ++ Hex.toString ciphertext) ":"
  = [Hex.toString iv; Hex.toString authTag; Hex.toString ciphertext].
Proof.
  change (":" ++ ?x) with (String ":" x).
  rewrite split_first by apply toString_no_colon.
  change (":" ++ Hex.toString ciphertext) with (String ":" (Hex.toString ciphertext)).
  rewrite split_first by apply toString_no_colon.
  now rewrite split_absent by apply toString_no_colon.
Qed.

Lemma div2_SS i : S (S i) / 2 = S (i / 2).
Proof.
  replace (S (S i)) with (i + 1 * 2) by lia.
  rewrite Nat.div_add by lia. lia.
Qed.

(** A character that is no hexadecimal digit, put in the place of a digit,
    ends the decoding before the byte it falls in. *)
Lemma from_alter i c buffer :
  Hex.value c = None -> i < 2 * length buffer ->
  Hex.from (Spec.alter i c (Hex.toString buffer)) = firstn (i / 2) buffer.
Proof.
  intros Hc. revert i.
  induction buffer as [|b l IH]; intros i Hi; [simpl in Hi; lia|].
  cbn [Hex.toString Hex.of_byte append]. destruct i as [|[|i]].
  - cbn [Spec.alter Hex.from]. now rewrite Hc.
  - cbn [Spec.alter Hex.from]. rewrite Hc.
    now destruct (Hex.value (Hex.digit _)).
  - cbn [Spec.alter]. rewrite div2_SS. cbn [firstn].
    rewrite <- (IH i) by (cbn [length] in Hi; lia).
    exact (from_of_byte b (Spec.alter i c (Hex.toString l))).
Qed.

Lemma occurs_alter i c s :
  c <> ":"%char -> occurs ":" s = false -> occurs ":" (Spec.alter i c s) = false.
Proof.
  intros Hc. revert i. induction s as [|a s IH]; intros i; [now destruct i|].
  cbn [occurs]. intros H. apply orb_false_iff in H as [Ha Hs].
  destruct i as [|i]; cbn [Spec.alter occurs].
  - rewrite Hs. now destruct (Ascii.eqb_spec c ":").
  - now rewrite Ha, IH.
Qed.

End HexFacts.

(** ** JSON *)

Module JSONFacts.
Import Text TextFacts JSON.

(** *** White space *)

Lemma skip_ws_blank w s : blank w = true -> skip_ws (w ++ s) = skip_ws s.
Proof.
  induction w as [|c w IH]; simpl; intros H; [reflexivity|].
  apply andb_true_iff in H as [Hc Hw]. now rewrite Hc, IH.
Qed.

Lemma blank_spaces n : blank (spaces n) = true.
Proof. induction n; simpl; auto. Qed.

Lemma blank_nl gap indent : blank (nl gap indent) = true.
Proof. destruct gap; simpl; [reflexivity | apply blank_spaces]. Qed.

(** *** String literals *)

Lemma parse_escape_char c s :
  parse_chars (escape_char c ++ s) = cons_char c (parse_chars s).
Proof.
  destruct c as [[] [] [] [] [] [] [] []]; reflexivity.
Qed.

Lemma parse_escape s rest :
  parse_chars (escape s ++ String dquote rest) = Some (s, rest).
Proof.
  induction s as [|c s IH]; [reflexivity|].
  cbn [escape]. rewrite TextFacts.app_assoc, parse_escape_char, IH. reflexivity.
Qed.

(** *** Numbers *)

Lemma read_digits_stop s : no_digit_head s -> read_digits s = (Nil, s).
Proof. destruct s as [|c s]; simpl; intros H; [reflexivity | now rewrite H]. Qed.

Lemma read_digits_uint u rest :
  no_digit_head rest ->
  read_digits (NilEmpty.string_of_uint u ++ rest) = (u, rest).
Proof.
  intros H. induction u; simpl; try (rewrite IHu; reflexivity).
  now apply read_digits_stop.
Qed.

Lemma nzhead_not_D0 d d' : nzhead d <> D0 d'.
Proof. induction d; simpl; try discriminate; exact IHd. Qed.

(** The decimal digits of a positive number start with a non-zero digit. *)
Lemma to_uint_positive p :
  exists c s, NilEmpty.string_of_uint (N.to_uint (Npos p)) = String c s
              /\ Ascii.eqb c "0" = false /\ Ascii.eqb c "-" = false
              /\ N.to_uint (Npos p) <> Nil.
Proof.
  pose proof (DecimalN.Unsigned.to_of (N.to_uint (Npos p))) as E.
  rewrite DecimalN.Unsigned.of_to in E.
  assert (N.to_uint (N.pos p) <> Nil) as Hnil
    by (rewrite E; apply unorm_nonnil).
  destruct (N.to_uint (N.pos p)) as [|u|u|u|u|u|u|u|u|u|u] eqn:Eu;
    [ now exfalso | | eexists _, _; simpl; repeat split; congruence .. ].
  exfalso. rewrite unorm_D0 in E. unfold unorm in E.
  destruct (nzhead u) eqn:En; try discriminate.
  - inversion E; subst. 
    assert (N.of_uint (N.to_uint (N.pos p)) = 0%N) by (rewrite Eu; reflexivity).
    rewrite DecimalN.Unsigned.of_to in H. discriminate.
  - exact (nzhead_not_D0 u u0 En).
Qed.

Lemma parse_natural_positive p rest :
  no_digit_head rest ->
  parse_natural (NilEmpty.string_of_uint (N.to_uint (Npos p)) ++ rest)
  = Some (Zpos p, rest).
Proof.
  intros H.
  destruct (to_uint_positive p) as (c & s & E & H0 & _ & Hnil).
  pose proof (read_digits_uint (N.to_uint (N.pos p)) rest H) as R.
  rewrite E in R |- *.
  change (String c s ++ rest) with (String c (s ++ rest)) in R |- *.
  unfold parse_natural. rewrite H0, R.
  destruct (N.to_uint (N.pos p)) eqn:Eu; [now exfalso | ..];
    now rewrite <- Eu, DecimalN.Unsigned.of_to.
Qed.

Lemma parse_number_to_string n rest :
  no_digit_head rest ->
  parse_number (number_to_string n ++ rest) = Some (n, rest).
Proof.
  intros H. destruct n as [|p|p]; [reflexivity| |].
  - pose proof (parse_natural_positive p rest H) as P.
    destruct (to_uint_positive p) as (c & s & E & _ & Hm & _).
    unfold number_to_string. rewrite E in P |- *.
    change (String c s ++ rest) with (String c (s ++ rest)) in P |- *.
    unfold parse_number. now rewrite Hm, P.
  - unfold number_to_string.
    change (String "-" ?x ++ rest) with (String "-" (x ++ rest)).
    unfold parse_number. rewrite Ascii.eqb_refl.
    now rewrite (parse_natural_positive p rest H).
Qed.

(** *** Values *)

Lemma skip_ws_idem s : skip_ws (skip_ws s) = skip_ws s.
Proof.
  induction s as [|c s IH]; simpl; [reflexivity|].
  destruct (is_ws c) eqn:E; [exact IH | simpl; now rewrite E].
Qed.

Lemma parse_value_skip fuel s : parse_value fuel (skip_ws s) = parse_value fuel s.
Proof.
  destruct fuel; [reflexivity|]. cbn [parse_value]. now rewrite skip_ws_idem.
Qed.

Lemma parse_value_blank fuel w s :
  blank w = true -> parse_value fuel (w ++ s) = parse_value fuel s.
Proof.
  intros H. rewrite <- (parse_value_skip fuel (w ++ s)), skip_ws_blank by exact H.
  apply parse_value_skip.
Qed.

Lemma parse_members_blank fuel w s :
  blank w = true -> parse_members fuel (w ++ s) = parse_members fuel s.
Proof.
  intros H. destruct fuel; [reflexivity|]. cbn [parse_members].
  now rewrite skip_ws_blank.
Qed.

Lemma no_digit_blank w c rest :
  blank w = true -> digit_of c = None -> no_digit_head (w ++ String c rest).
Proof.
  destruct w as [|a w]; simpl; intros H Hc; [exact Hc|].
  apply andb_true_iff in H as [Ha _].
  destruct a as [[] [] [] [] [] [] [] []]; try discriminate Ha; reflexivity.
Qed.

(** The text of a value starts with a character that is neither white
    space nor a closing bracket. *)
Lemma serialize_head gap indent v :
  exists c s, serialize gap indent v = String c s
              /\ is_ws c = false /\ Ascii.eqb c "]" = false.
Proof.
  destruct v as [|[]|[|p|p]|s|[|x l]|[|kv l]];
    try (eexists _, _; repeat split; reflexivity).
  destruct (to_uint_positive p) as (c & s & E & _ & _ & Hnil).
  cbn [serialize number_to_string]. rewrite E. rewrite <- E. 
  destruct (N.to_uint (N.pos p)); [now exfalso | ..];
    eexists _, _; repeat split; reflexivity.
Qed.

Lemma parse_value_number fuel n rest :
  no_digit_head rest ->
  parse_value (S fuel) (number_to_string n ++ rest) = Some (JNum n, rest).
Proof.
  intros H. pose proof (parse_number_to_string n rest H) as P.
  destruct n as [|p|p]; [reflexivity| |].
  - destruct (to_uint_positive p) as (c & s & E & _ & _ & Hnil).
    cbn [number_to_string] in *.
    destruct (N.to_uint (N.pos p)); [now exfalso | ..];
      cbn [NilEmpty.string_of_uint append] in *; cbn [parse_value skip_ws];
      cbv [is_ws Ascii.eqb Bool.eqb orb dquote]; cbv iota; now rewrite P.
  - cbn [number_to_string append] in *. cbn [parse_value skip_ws].
    cbv [is_ws Ascii.eqb Bool.eqb orb dquote]; cbv iota. now rewrite P.
Qed.

Lemma parse_value_string fuel s rest :
  parse_value (S fuel) (quote s ++ rest) = Some (JStr s, rest).
Proof.
  unfold quote. change (String dquote ?x ++ rest) with (String dquote (x ++ rest)).
  rewrite TextFacts.app_assoc.
  change (String dquote "" ++ rest) with (String dquote rest).
  cbn [parse_value skip_ws]. change (is_ws dquote) with false. cbv iota.
  change (Ascii.eqb dquote "n") with false.
  change (Ascii.eqb dquote "t") with false.
  change (Ascii.eqb dquote "f") with false.
  rewrite Ascii.eqb_refl. cbv iota. now rewrite parse_escape.
Qed.

Lemma elements_text_more gap indent x y l :
  elements_text gap indent (x :: y :: l)
  = serialize gap indent x
    ++ String "," (nl gap indent ++ elements_text gap indent (y :: l)).
Proof. reflexivity. Qed.

Lemma members_text_more gap indent kv kv' l :
  members_text gap indent (kv :: kv' :: l)
  = member_text gap indent kv
    ++ String "," (nl gap indent ++ members_text gap indent (kv' :: l)).
Proof. reflexivity. Qed.

Lemma skip_ws_colon gap s :
  exists b, blank b = true /\ skip_ws (colon gap ++ s) = String ":" (b ++ s).
Proof.
  destruct gap; [exists "" | exists " "]; split; reflexivity.
Qed.

(** One element of an array, and what follows it. *)
Lemma parse_element fuel gap indent x tail :
  reads_back x -> size x <= fuel -> no_digit_head tail ->
  parse_elements (S fuel) (serialize gap indent x ++ tail)
  = match skip_ws tail with
    | String c r =>
        if Ascii.eqb c "," then
          match parse_elements fuel r with
          | Some (vs, rest) => Some (x :: vs, rest)
          | None => None
          end
        else if Ascii.eqb c "]" then Some ([x], r)
        else None
    | EmptyString => None
    end.
Proof.
  intros Hx Hf Ht. cbn [parse_elements]. now rewrite (Hx gap indent fuel tail Hf Ht).
Qed.

Lemma parse_elements_text items :
  Forall reads_back items -> items <> [] ->
  forall gap indent fuel b w rest,
    sizes items <= fuel -> blank b = true -> blank w = true ->
    parse_elements fuel (b ++ elements_text gap indent items ++ w ++ String "]" rest)
    = Some (items, rest).
Proof.
  induction 1 as [|x l Hx Hl IH]; [congruence|].
  intros _ gap indent fuel b w rest Hf Hb Hw.
  destruct fuel as [|fuel]; [simpl in Hf; lia|].
  unfold sizes in Hf. cbn [fold_right] in Hf. fold (sizes l) in Hf.
  assert (parse_elements (S fuel) (b ++ elements_text gap indent (x :: l)
                                     ++ w ++ String "]" rest)
          = parse_elements (S fuel) (elements_text gap indent (x :: l)
                                       ++ w ++ String "]" rest)) as ->
    by (cbn [parse_elements]; now rewrite (parse_value_blank _ _ _ Hb)).
  destruct l as [|y l].
  - change (elements_text gap indent [x]) with (serialize gap indent x).
    rewrite (parse_element fuel gap indent x _ Hx);
      [ | lia | now apply no_digit_blank ].
    now rewrite (skip_ws_blank _ _ Hw).
  - rewrite elements_text_more, TextFacts.app_assoc.
    change (String "," ?t ++ ?u) with (String "," (t ++ u)).
    rewrite TextFacts.app_assoc.
    rewrite (parse_element fuel gap indent x _ Hx); [ | lia | reflexivity ].
    cbn [skip_ws]. change (is_ws ",") with false. cbv iota.
    rewrite Ascii.eqb_refl.
    rewrite IH; [reflexivity | discriminate | lia | apply blank_nl | exact Hw].
Qed.

(** One member of an object, and what follows it. *)
Lemma parse_member fuel gap indent k v tail :
  reads_back v -> size v <= fuel -> no_digit_head tail ->
  parse_members (S fuel) (member_text gap indent (k, v) ++ tail)
  = match skip_ws tail with
    | String c r =>
        if Ascii.eqb c "," then
          match parse_members fuel r with
          | Some (ms, rest) => Some ((k, v) :: ms, rest)
          | None => None
          end
        else if Ascii.eqb c "}" then Some ([(k, v)], r)
        else None
    | EmptyString => None
    end.
Proof.
  intros Hv Hf Ht. unfold member_text, quote. cbn [fst snd].
  rewrite !TextFacts.app_assoc.
  change (String dquote ?t ++ ?u) with (String dquote (t ++ u)).
  rewrite !TextFacts.app_assoc.
  change (String dquote "" ++ ?u) with (String dquote u).
  cbn [parse_members skip_ws]. change (is_ws dquote) with false. cbv iota.
  rewrite Ascii.eqb_refl, parse_escape.
  destruct (skip_ws_colon gap (serialize gap indent v ++ tail)) as (b & Hb & ->).
  rewrite Ascii.eqb_refl, (parse_value_blank _ _ _ Hb).
  now rewrite (Hv gap indent fuel tail Hf Ht).
Qed.

Lemma parse_members_text fields :
  Forall (fun kv => reads_back (snd kv)) fields -> fields <> [] ->
  forall gap indent fuel b w rest,
    member_sizes fields <= fuel -> blank b = true -> blank w = true ->
    parse_members fuel (b ++ members_text gap indent fields ++ w ++ String "}" rest)
    = Some (fields, rest).
Proof.
  induction 1 as [|[k v] l Hx Hl IH]; [congruence|].
  intros _ gap indent fuel b w rest Hf Hb Hw.
  destruct fuel as [|fuel]; [simpl in Hf; lia|].
  unfold member_sizes in Hf. cbn [fold_right snd] in Hf. fold (member_sizes l) in Hf.
  cbn [snd] in Hx. rewrite (parse_members_blank _ _ _ Hb).
  destruct l as [|kv' l].
  - change (members_text gap indent [(k, v)]) with (member_text gap indent (k, v)).
    rewrite (parse_member fuel gap indent k v _ Hx);
      [ | lia | now apply no_digit_blank ].
    now rewrite (skip_ws_blank _ _ Hw).
  - rewrite members_text_more, TextFacts.app_assoc.
    change (String "," ?t ++ ?u) with (String "," (t ++ u)).
    rewrite TextFacts.app_assoc.
    rewrite (parse_member fuel gap indent k v _ Hx); [ | lia | reflexivity ].
    cbn [skip_ws]. change (is_ws ",") with false. cbv iota.
    rewrite Ascii.eqb_refl.
    rewrite IH; [reflexivity | discriminate | lia | apply blank_nl | exact Hw].
Qed.

(** *** Objects without repeated keys *)

Lemma existsb_eqb k l : existsb (String.eqb k) l = true <-> In k l.
Proof.
  rewrite existsb_exists. split.
  - intros (x & Hin & E). apply String.eqb_eq in E. now subst.
  - intros H. exists k. split; [exact H | apply String.eqb_refl].
Qed.

Lemma distinct_NoDup l : distinct l = true <-> NoDup l.
Proof.
  induction l as [|k l IH]; simpl.
  - split; [constructor | reflexivity].
  - rewrite andb_true_iff, negb_true_iff, IH. split.
    + intros [H1 H2]. constructor; [|exact H2].
      intros Hin. apply existsb_eqb in Hin. congruence.
    + intros H. inversion H; subst. split; [|assumption].
      destruct (existsb (String.eqb k) l) eqn:E; [|reflexivity].
      apply existsb_eqb in E. contradiction.
Qed.

Lemma obj_set_fresh o k v : ~ In k (keys o) -> obj_set o k v = (o ++ [(k, v)])%list.
Proof.
  induction o as [|[k' v'] o IH]; simpl; intros H; [reflexivity|].
  destruct (String.eqb_spec k' k) as [E|E]; [exfalso; auto|].
  rewrite IH; [reflexivity | tauto].
Qed.

Lemma spread_fresh l : forall acc,
  NoDup (keys acc ++ keys l) -> spread acc l = (acc ++ l)%list.
Proof.
  unfold spread. induction l as [|[k v] l IH]; intros acc H; simpl.
  - now rewrite List.app_nil_r.
  - simpl in H. pose proof (NoDup_remove_2 _ _ _ H) as Hk.
    rewrite obj_set_fresh by (intros Hin; apply Hk, in_or_app; now left).
    rewrite IH.
    + now rewrite <- List.app_assoc.
    + unfold keys in *. rewrite map_app, <- List.app_assoc. exact H.
Qed.

(** An object literal without repeated keys is read as it is written. *)
Lemma of_members_distinct l : distinct (keys l) = true -> of_members l = l.
Proof.
  intros H. unfold of_members. rewrite spread_fresh; [reflexivity|].
  now apply distinct_NoDup.
Qed.

(** *** The round trip of [JSON.stringify] and [JSON.parse] *)

Lemma forallb_Forall {A} (f : A -> bool) (P : A -> Prop) l :
  Forall (fun x => f x = true -> P x) l -> forallb f l = true -> Forall P l.
Proof.
  induction 1 as [|x l Hx Hl IH]; simpl; intros H; constructor;
    apply andb_true_iff in H as [H1 H2]; auto.
Qed.

Lemma parse_serialize v : well_formed v = true -> reads_back v.
Proof.
  induction v as [| b | n | s | items IH | fields IH] using json_induction;
    intros Hwf gap indent fuel rest Hf Hrest;
    (destruct fuel as [|fuel]; [simpl in Hf; lia|]).
  - reflexivity.
  - destruct b; reflexivity.
  - now apply parse_value_number.
  - apply parse_value_string.
  - cbn [well_formed] in Hwf.
    pose proof (forallb_Forall _ _ _ IH Hwf) as Hall.
    destruct items as [|x l]; [reflexivity|].
    change (serialize gap indent (JArr (x :: l)))
      with ("[" ++ nl gap (indent + gap)
            ++ elements_text gap (indent + gap) (x :: l) ++ nl gap indent ++ "]").
    rewrite !TextFacts.app_assoc.
    change ("[" ++ ?x) with (String "[" x). change ("]" ++ ?x) with (String "]" x).
    cbn [parse_value skip_ws]. change (is_ws "[") with false. cbv iota.
    change (Ascii.eqb "[" "n") with false. change (Ascii.eqb "[" "t") with false.
    change (Ascii.eqb "[" "f") with false. change (Ascii.eqb "[" dquote) with false.
    rewrite Ascii.eqb_refl. cbv iota.
    rewrite (skip_ws_blank _ _ (blank_nl gap (indent + gap))).
    assert (exists c s, elements_text gap (indent + gap) (x :: l)
                        ++ nl gap indent ++ String "]" rest = String c s
                        /\ is_ws c = false /\ Ascii.eqb c "]" = false)
      as (c & s & E & Hc & Hc').
    { destruct (serialize_head gap (indent + gap) x) as (c & s & E & Hc & Hc').
      destruct l as [|y l].
      - unfold elements_text. cbn [map String.concat]. rewrite E.
        eexists _, _; repeat split; eauto.
      - rewrite elements_text_more, E. eexists _, _; repeat split; eauto. }
    rewrite E. cbn [skip_ws]. rewrite Hc, Hc'. rewrite <- E.
    rewrite parse_elements_text;
      [reflexivity | exact Hall | discriminate | | apply blank_nl | apply blank_nl].
    cbn [size] in Hf. unfold sizes. lia.
  - cbn [well_formed] in Hwf. apply andb_true_iff in Hwf as [Hd Hwf].
    pose proof (forallb_Forall (fun kv => well_formed (snd kv))
                  (fun kv => reads_back (snd kv)) _ IH Hwf) as Hall.
    destruct fields as [|kv l]; [reflexivity|].
    change (serialize gap indent (JObj (kv :: l)))
      with ("{" ++ nl gap (indent + gap)
            ++ members_text gap (indent + gap) (kv :: l) ++ nl gap indent ++ "}").
    rewrite !TextFacts.app_assoc.
    change ("{" ++ ?x) with (String "{" x). change ("}" ++ ?x) with (String "}" x).
    cbn [parse_value skip_ws]. change (is_ws "{") with false. cbv iota.
    change (Ascii.eqb "{" "n") with false. change (Ascii.eqb "{" "t") with false.
    change (Ascii.eqb "{" "f") with false. change (Ascii.eqb "{" dquote) with false.
    change (Ascii.eqb "{" "[") with false.
    rewrite Ascii.eqb_refl. cbv iota.
    rewrite (skip_ws_blank _ _ (blank_nl gap (indent + gap))).
    assert (exists s, members_text gap (indent + gap) (kv :: l)
                      ++ nl gap indent ++ String "}" rest = String dquote s)
      as (s & E).
    { destruct l as [|kv' l].
      - unfold members_text. cbn [map String.concat].
        unfold member_text, quote. eexists. reflexivity.
      - rewrite members_text_more. unfold member_text, quote. eexists. reflexivity. }
    rewrite E. cbn [skip_ws]. change (is_ws dquote) with false. cbv iota.
    change (Ascii.eqb dquote "}") with false. cbv iota. rewrite <- E.
    rewrite parse_members_text;
      [ | exact Hall | discriminate | | apply blank_nl | apply blank_nl].
    + now rewrite of_members_distinct.
    + cbn [size] in Hf. unfold member_sizes. lia.
Qed.

Lemma sizes_elements_text gap indent items :
  Forall (fun v => forall gap indent, size v <= String.length (serialize gap indent v)) items ->
  items <> [] ->
  sizes items <= S (String.length (elements_text gap indent items)).
Proof.
  induction 1 as [|x l Hx Hl IH]; [congruence|]. intros _.
  destruct l as [|y l].
  - unfold elements_text. cbn [map String.concat sizes fold_right].
    specialize (Hx gap indent). lia.
  - rewrite elements_text_more, length_app. cbn [String.length].
    rewrite length_app.
    specialize (Hx gap indent). specialize (IH ltac:(discriminate)).
    unfold sizes in *. cbn [fold_right] in *. lia.
Qed.

Lemma sizes_members_text gap indent fields :
  Forall (fun kv => forall gap indent,
              size (snd kv) <= String.length (serialize gap indent (snd kv))) fields ->
  fields <> [] ->
  member_sizes fields <= S (String.length (members_text gap indent fields)).
Proof.
  induction 1 as [|[k v] l Hx Hl IH]; [congruence|]. intros _.
  assert (size v <= String.length (member_text gap indent (k, v))) as Hm.
  { unfold member_text. rewrite !length_app. specialize (Hx gap indent).
    simpl in *. lia. }
  destruct l as [|kv' l].
  - unfold members_text. cbn [map String.concat member_sizes fold_right snd]. lia.
  - rewrite members_text_more, length_app. cbn [String.length].
    rewrite length_app. specialize (IH ltac:(discriminate)).
    unfold member_sizes in *. cbn [fold_right snd] in *. lia.
Qed.

(** The text of a value is at least as long as the value is big. *)
Lemma size_length v gap indent : size v <= String.length (serialize gap indent v).
Proof.
  revert gap indent.
  induction v as [| b | n | s | items IH | fields IH] using json_induction;
    intros gap indent.
  - simpl. lia.
  - destruct b; simpl; lia.
  - destruct (serialize_head gap indent (JNum n)) as (c & s & E & _).
    rewrite E. simpl. lia.
  - simpl. lia.
  - destruct items as [|x l]; [simpl; lia|].
    change (serialize gap indent (JArr (x :: l)))
      with ("[" ++ nl gap (indent + gap)
            ++ elements_text gap (indent + gap) (x :: l) ++ nl gap indent ++ "]").
    pose proof (sizes_elements_text gap (indent + gap) (x :: l) IH ltac:(discriminate)).
    rewrite !length_app. unfold sizes in *. cbn [size String.length fold_right] in *. lia.
  - destruct fields as [|kv l]; [simpl; lia|].
    change (serialize gap indent (JObj (kv :: l)))
      with ("{" ++ nl gap (indent + gap)
            ++ members_text gap (indent + gap) (kv :: l) ++ nl gap indent ++ "}").
    pose proof (sizes_members_text gap (indent + gap) (kv :: l) IH ltac:(discriminate)).
    rewrite !length_app. unfold member_sizes in *.
    cbn [size String.length fold_right] in *. lia.
Qed.

(** [JSON.parse(JSON.stringify(v, null, gap))] is [v]. *)
Theorem parse_stringify v gap :
  well_formed v = true -> parse (stringify v gap) = Ok v.
Proof.
  intros H. unfold parse, stringify.
  pose proof (parse_serialize v H gap 0 (S (String.length (serialize gap 0 v))) "") as R.
  rewrite TextFacts.app_nil_r in R. rewrite R; [reflexivity | | exact I].
  pose proof (size_length v gap 0). lia.
Qed.

(** *** What the parser builds is well formed *)

Lemma In_keys_obj_set o k v k' :
  In k' (keys (obj_set o k v)) <-> In k' (keys o) \/ k' = k.
Proof.
  induction o as [|[k0 v0] o IH]; simpl.
  - intuition.
  - destruct (String.eqb_spec k0 k) as [E|E]; simpl.
    + subst. intuition.
    + rewrite IH. intuition.
Qed.

Lemma obj_set_NoDup o k v : NoDup (keys o) -> NoDup (keys (obj_set o k v)).
Proof.
  induction o as [|[k0 v0] o IH]; simpl; intros H.
  - constructor; [intros [] | constructor].
  - inversion H; subst.
    destruct (String.eqb_spec k0 k) as [E|E]; simpl.
    + constructor; assumption.
    + constructor; [| now apply IH].
      rewrite In_keys_obj_set. intros [Hin | Heq]; [contradiction | congruence].
Qed.

Lemma obj_set_values (P : json -> bool) o k v :
  forallb (fun kv => P (snd kv)) o = true -> P v = true ->
  forallb (fun kv => P (snd kv)) (obj_set o k v) = true.
Proof.
  induction o as [|[k0 v0] o IH]; simpl; intros H Hv.
  - now rewrite Hv.
  - apply andb_true_iff in H as [H0 H1].
    destruct (String.eqb k0 k); simpl.
    + now rewrite Hv, H1.
    + now rewrite H0, IH.
Qed.

Lemma spread_well_formed source : forall target,
  well_formed (JObj target) = true ->
  forallb (fun kv => well_formed (snd kv)) source = true ->
  well_formed (JObj (spread target source)) = true.
Proof.
  unfold spread. induction source as [|[k v] l IH]; simpl; intros target Ht Hs.
  - exact Ht.
  - apply andb_true_iff in Hs as [Hv Hl]. apply IH; [|exact Hl].
    cbn [well_formed] in *. apply andb_true_iff in Ht as [Hd Hvals].
    apply andb_true_iff. split.
    + apply distinct_NoDup, obj_set_NoDup. now apply distinct_NoDup.
    + now apply obj_set_values.
Qed.

Lemma parse_value_well_formed fuel :
  (forall s v r, parse_value fuel s = Some (v, r) -> well_formed v = true)
  /\ (forall s vs r, parse_elements fuel s = Some (vs, r) ->
                     forallb well_formed vs = true)
  /\ (forall s ms r, parse_members fuel s = Some (ms, r) ->
                     forallb (fun kv => well_formed (snd kv)) ms = true).
Proof.
  induction fuel as [|fuel (IHv & IHe & IHm)]; [repeat split; discriminate|].
  repeat split.
  - intros s v r. cbn [parse_value].
    destruct (skip_ws s) as [|c s']; [discriminate|].
    repeat match goal with
           | |- (if ?b then _ else _) = _ -> _ => destruct b
           | |- option_map _ ?o = _ -> _ => destruct o; simpl
           | |- match ?o with _ => _ end = _ -> _ => destruct o eqn:?
           | p : (_ * _)%type |- _ => destruct p
           end;
      try discriminate; intros [= <- <-]; try reflexivity.
    + apply (IHe _ _ _ Heqo).
    + apply spread_well_formed; [reflexivity | apply (IHm _ _ _ Heqo)].
  - intros s vs r. cbn [parse_elements].
    destruct (parse_value fuel s) as [[v r']|] eqn:Ev; [|discriminate].
    destruct (skip_ws r') as [|c r'']; [discriminate|].
    destruct (Ascii.eqb c ",").
    + destruct (parse_elements fuel r'') as [[vs' r3]|] eqn:Ee; [|discriminate].
      intros [= <- <-]. simpl. now rewrite (IHv _ _ _ Ev), (IHe _ _ _ Ee).
    + destruct (Ascii.eqb c "]"); [|discriminate].
      intros [= <- <-]. simpl. now rewrite (IHv _ _ _ Ev).
  - intros s ms r. cbn [parse_members].
    destruct (skip_ws s) as [|c s']; [discriminate|].
    destruct (Ascii.eqb c dquote); [|discriminate].
    destruct (parse_chars s') as [[key r1]|]; [|discriminate].
    destruct (skip_ws r1) as [|c1 r2]; [discriminate|].
    destruct (Ascii.eqb c1 ":"); [|discriminate].
    destruct (parse_value fuel r2) as [[v r3]|] eqn:Ev; [|discriminate].
    destruct (skip_ws r3) as [|c3 r4]; [discriminate|].
    destruct (Ascii.eqb c3 ",").
    + destruct (parse_members fuel r4) as [[ms' r5]|] eqn:Em; [|discriminate].
      intros [= <- <-]. simpl. now rewrite (IHv _ _ _ Ev), (IHm _ _ _ Em).
    + destruct (Ascii.eqb c3 "}"); [|discriminate].
      intros [= <- <-]. simpl. now rewrite (IHv _ _ _ Ev).
Qed.

(** Every value that [JSON.parse] returns is well formed. *)
Theorem parse_well_formed text v : parse text = Ok v -> well_formed v = true.
Proof.
  unfold parse.
  destruct (parse_value (S (String.length text)) text) as [[v' r]|] eqn:E;
    [|discriminate].
  destruct (skip_ws r); [|discriminate]. intros [= <-].
  exact (proj1 (parse_value_well_formed _) _ _ _ E).
Qed.
End JSONFacts.

(** ** The concrete library *)

Module ToyCryptoFacts.

Lemma bytes_eqb_refl a : ToyCrypto.bytes_eqb a a = true.
Proof.
  induction a as [|x a IH]; simpl; [reflexivity|].
  now rewrite (Byte.byte_dec_lb eq_refl), IH.
Qed.

Lemma toy_correct : cipher_correct ToyCrypto.lib.
Proof.
  intros algorithm key iv text ciphertext authTag. simpl.
  unfold ToyCrypto.cipher, ToyCrypto.decipher. intros [= <- <-].
  now rewrite bytes_eqb_refl, string_of_list_byte_of_string.
Qed.

End ToyCryptoFacts.

Module ToyGcmFacts.
Import ToyCryptoFacts.

Lemma bytes_eqb_eq a : forall b, ToyCrypto.bytes_eqb a b = true -> a = b.
Proof.
  induction a as [|x a IH]; intros [|y b]; simpl; try discriminate; [reflexivity|].
  intros H. apply andb_true_iff in H as [Hx Hab].
  now rewrite (Byte.byte_dec_bl _ _ Hx), (IH b Hab).
Qed.

Lemma tag_length key iv ciphertext : length (ToyGcm.tag key iv ciphertext) = 16.
Proof.
  unfold ToyGcm.tag. rewrite length_firstn, !length_app, repeat_length. lia.
Qed.

Lemma toy_gcm_correct : cipher_correct ToyGcm.lib.
Proof.
  intros algorithm key iv text ciphertext authTag. simpl.
  unfold ToyGcm.cipher, ToyGcm.decipher. intros [= <- <-].
  rewrite tag_length. cbn [gcm_tag_length existsb Nat.eqb orb andb].
  rewrite <- (tag_length key iv (list_byte_of_string text)) at 1.
  now rewrite firstn_all, bytes_eqb_refl, string_of_list_byte_of_string.
Qed.

(** The library accepts a tag cut to any length that GCM allows. *)
Lemma toy_gcm_short_tags : accepts_short_tags ToyGcm.lib.
Proof.
  intros algorithm key iv authTag ciphertext text n. simpl.
  unfold ToyGcm.decipher.
  destruct (gcm_tag_length (length authTag) && _) eqn:E; [|discriminate].
  intros [= <-] Hn Hle. apply andb_true_iff in E as [_ E].
  apply bytes_eqb_eq in E.
  rewrite length_firstn, Nat.min_l by exact Hle. rewrite Hn.
  assert (firstn n authTag = firstn n (ToyGcm.tag key iv ciphertext)) as ->.
  { rewrite E, firstn_firstn. f_equal. lia. }
  now rewrite bytes_eqb_refl.
Qed.

End ToyGcmFacts.

(** ** The envelope *)

Module StoreFacts.
Import Text TextFacts JSON JSONFacts JsonDB.

Section Envelope.
Variable lib : CryptoLib.

Lemma set_password_restore this p :
  set_password (set_password this p) (password this) = this.
Proof. destruct this; reflexivity. Qed.

Lemma readDB_plain this text :
  truthy (password this) = None ->
  _readDB lib this (Some text) = JSON.parse text.
Proof. intros H. unfold _readDB. simpl. now rewrite H. Qed.

Lemma writeDB_plain this rnd data :
  truthy (password this) = None ->
  _writeDB lib this rnd data = Ok (Some (JSON.stringify data 2)).
Proof. intros H. unfold _writeDB. now rewrite H. Qed.

(** Reading [salt:iv:authTag:ciphertext], four texts without a colon, comes
    down to [decipher] on the decoded parts under the key derived from the
    salt. *)
Lemma readDB_parts this pw salt iv authTag ciphertext :
  truthy (password this) = Some pw ->
  occurs ":" salt = false -> occurs ":" iv = false ->
  occurs ":" authTag = false -> occurs ":" ciphertext = false ->
  _readDB lib this (Some (salt ++ ":" ++ iv ++ ":" ++ authTag ++ ":" ++ ciphertext))
  = bind (_deriveKey lib this pw salt)
      (fun key =>
         bind (decipher lib (algorithm this) key (Hex.from iv) (Hex.from authTag)
                 (Hex.from ciphertext))
           JSON.parse).
Proof.
  intros Hpw Hs Hi Ht Hc. unfold _readDB. cbn [readFileSync bind]. rewrite Hpw.
  set (rest := iv ++ ":" ++ authTag ++ ":" ++ ciphertext).
  change (":" ++ rest) with (String ":" rest).
  destruct (substring_salt salt rest ":" Hs) as [Hsalt Hrest].
  cbv zeta in Hsalt, Hrest. rewrite Hsalt, Hrest.
  rewrite indexOf_first by exact Hs.
  destruct (Z.eqb_spec (Z.of_nat (String.length salt)) (-1)); [lia|].
  destruct (_deriveKey lib this pw salt) as [key|e]; [|reflexivity].
  cbn [bind]. unfold _decryptWithKey, rest.
  change (":" ++ ?x) with (String ":" x).
  rewrite (split_first _ _ _ Hi).
  change (":" ++ ciphertext) with (String ":" ciphertext).
  rewrite (split_first _ _ _ Ht), (split_absent _ _ Hc).
  reflexivity.
Qed.

Lemma readDB_envelope this pw salt iv authTag ciphertext key :
  truthy (password this) = Some pw ->
  _deriveKey lib this pw (Hex.toString salt) = Ok key ->
  _readDB lib this
    (Some (Hex.toString salt ++ ":" ++ Hex.toString iv ++ ":"
           ++ Hex.toString authTag ++ ":" ++ Hex.toString ciphertext))
  = bind (decipher lib (algorithm this) key iv authTag ciphertext) JSON.parse.
Proof.
  intros Hpw Hkey.
  rewrite (readDB_parts _ pw) by (try exact Hpw; apply HexFacts.toString_no_colon).
  rewrite Hkey. cbn [bind]. now rewrite !HexFacts.from_toString.
Qed.

Lemma writeDB_envelope this rnd data pw d' :
  truthy (password this) = Some pw ->
  _writeDB lib this rnd data = Ok d' ->
  exists key ciphertext authTag,
    _deriveKey lib this pw (Hex.toString (salt_bytes rnd)) = Ok key
    /\ cipher lib (algorithm this) key (iv_bytes rnd) (JSON.stringify data 2)
       = Ok (ciphertext, authTag)
    /\ d' = Some (Hex.toString (salt_bytes rnd) ++ ":"
                  ++ Hex.toString (iv_bytes rnd) ++ ":"
                  ++ Hex.toString authTag ++ ":" ++ Hex.toString ciphertext).
Proof.
  intros Hpw. unfold _writeDB. rewrite Hpw.
  destruct (_deriveKey lib this pw (Hex.toString (salt_bytes rnd))) as [key|e] eqn:Hk;
    [|discriminate].
  cbn [bind]. unfold _encryptWithKey.
  destruct (cipher lib (algorithm this) key (iv_bytes rnd) (stringify data 2))
    as [[ciphertext authTag]|e] eqn:Hc; [|discriminate].
  cbn [bind]. intros [= <-]. now exists key, ciphertext, authTag.
Qed.

(** What [_writeDB] stored, [_readDB] returns. *)
Lemma readDB_writeDB this rnd data d' :
  cipher_correct lib -> well_formed data = true ->
  _writeDB lib this rnd data = Ok d' ->
  _readDB lib this d' = Ok data.
Proof.
  intros Hlib Hwf Hw. destruct (truthy (password this)) as [pw|] eqn:Hpw.
  - destruct (writeDB_envelope _ _ _ _ _ Hpw Hw) as (key & ct & tag & Hk & Hc & ->).
    rewrite (readDB_envelope _ _ _ _ _ _ _ Hpw Hk), (Hlib _ _ _ _ _ _ Hc).
    cbn [bind]. now apply parse_stringify.
  - rewrite writeDB_plain in Hw by exact Hpw. injection Hw as <-.
    rewrite readDB_plain by exact Hpw. now apply parse_stringify.
Qed.

(** Whatever [_readDB] returns is well formed. *)
Lemma readDB_well_formed this d data :
  _readDB lib this d = Ok data -> well_formed data = true.
Proof.
  unfold _readDB. destruct d as [text|]; [|discriminate]. cbn [readFileSync bind].
  destruct (truthy (password this)) as [pw|].
  - destruct (indexOf text ":" =? -1)%Z; [discriminate|].
    destruct (_deriveKey _ _ _ _); [|discriminate]. cbn [bind].
    destruct (_decryptWithKey _ _ _ _); [|discriminate]. cbn [bind].
    apply parse_well_formed.
  - apply parse_well_formed.
Qed.

End Envelope.
End StoreFacts.

(** ** Documents *)

Module CrudFacts.
Import Text TextFacts JSON JSONFacts JsonDB Spec StoreFacts.

(** *** Callbacks that do not throw *)

Lemma every_pure {A} (f : A -> result bool) (g : A -> bool) l :
  (forall x, f x = Ok (g x)) -> every f l = Ok (forallb g l).
Proof.
  intros H. induction l as [|x l IH]; simpl; [reflexivity|].
  rewrite H. cbn [bind]. destruct (g x); [exact IH | reflexivity].
Qed.

Lemma filter_r_objects (f : json -> result bool) (g : object -> bool) docs :
  (forall doc, f (JObj doc) = Ok (g doc)) ->
  filter_r f (map JObj docs) = Ok (map JObj (filter g docs)).
Proof.
  intros H. induction docs as [|doc docs IH]; simpl; [reflexivity|].
  rewrite H, IH. cbn [bind]. now destruct (g doc).
Qed.

Lemma map_r_objects (f : json -> result json) (h : object -> object) docs :
  (forall doc, f (JObj doc) = Ok (JObj (h doc))) ->
  map_r f (map JObj docs) = Ok (map JObj (map h docs)).
Proof.
  intros H. induction docs as [|doc docs IH]; simpl; [reflexivity|].
  now rewrite H, IH.
Qed.

Lemma find_r_objects (f : json -> result bool) (g : object -> bool) docs :
  (forall doc, f (JObj doc) = Ok (g doc)) ->
  find_r f (map JObj docs) = Ok (option_map JObj (List.find g docs)).
Proof.
  intros H. induction docs as [|doc docs IH]; simpl; [reflexivity|].
  rewrite H. cbn [bind]. now destruct (g doc).
Qed.

(** *** Lists *)

Lemma filter_length_le {A} (f : A -> bool) l : length (filter f l) <= length l.
Proof. induction l as [|x l IH]; simpl; [lia | destruct (f x); simpl; lia]. Qed.

Lemma filter_all {A} (f : A -> bool) l :
  (forall x, In x l -> f x = true) -> filter f l = l.
Proof.
  induction l as [|x l IH]; simpl; intros H; [reflexivity|].
  rewrite (H x (or_introl eq_refl)), IH; auto.
Qed.

Lemma filter_shorter {A} (f : A -> bool) l :
  length (filter f l) <> length l <-> exists x, In x l /\ f x = false.
Proof.
  induction l as [|x l IH]; simpl.
  - split; [congruence | intros (x & [] & _)].
  - pose proof (filter_length_le f l). destruct (f x) eqn:E; simpl.
    + split.
      * intros H'. destruct (proj1 IH) as (y & Hy & Hf); [lia|]. eauto.
      * intros (y & [<-|Hy] & Hf); [congruence|].
        assert (length (filter f l) <> length l) by (apply IH; eauto). lia.
    + split; [intros _; eauto | intros _; lia].
Qed.

(** *** Objects *)

Lemma obj_get_In o k v : obj_get o k = Some v -> In k (keys o).
Proof.
  induction o as [|[k0 v0] o IH]; simpl; [discriminate|].
  destruct (String.eqb_spec k0 k); [now left | right; auto].
Qed.

Lemma In_obj_get o k : In k (keys o) -> exists v, obj_get o k = Some v.
Proof.
  induction o as [|[k0 v0] o IH]; simpl; [intros []|].
  destruct (String.eqb_spec k0 k) as [E|E]; [eauto|].
  intros [H|H]; [contradiction | auto].
Qed.

Lemma obj_get_obj_set o k v k' :
  obj_get (obj_set o k v) k' = if String.eqb k k' then Some v else obj_get o k'.
Proof.
  induction o as [|[k0 v0] o IH]; simpl; [reflexivity|].
  destruct (String.eqb_spec k0 k) as [E|E]; simpl.
  - subst. now destruct (String.eqb k k').
  - rewrite IH. destruct (String.eqb_spec k0 k') as [E'|E']; [|reflexivity].
    subst. destruct (String.eqb_spec k k'); [congruence | reflexivity].
Qed.

Lemma obj_get_absent o k : ~ In k (keys o) -> obj_get o k = None.
Proof.
  intros H. destruct (obj_get o k) eqn:E; [|reflexivity].
  exfalso. eauto using obj_get_In.
Qed.

(** The fields of [{...doc, ...updates}]. *)
Lemma obj_get_spread updates : forall doc,
  NoDup (keys updates) -> merged doc updates (spread doc updates).
Proof.
  unfold merged, spread.
  induction updates as [|[k0 v0] l IH]; intros doc Hnd k; simpl; [reflexivity|].
  inversion Hnd; subst. rewrite IH by assumption. rewrite obj_get_obj_set.
  destruct (String.eqb_spec k0 k) as [E|E]; [|reflexivity].
  subst. now rewrite obj_get_absent.
Qed.

Lemma strict_equal_spec a v :
  strict_equal a (Some v) = true <-> exists w, a = Some w /\ same_primitive w v.
Proof.
  split.
  - destruct a as [[| x | x | x | |]|], v as [| y | y | y | |]; simpl;
      try discriminate; intros H; eexists; split; try reflexivity.
    + constructor.
    + apply Bool.eqb_prop in H. subst. constructor.
    + apply Z.eqb_eq in H. subst. constructor.
    + apply String.eqb_eq in H. subst. constructor.
  - intros (w & -> & Hs). destruct Hs; simpl;
      auto using Bool.eqb_reflx, Z.eqb_refl, String.eqb_refl.
Qed.

Lemma id_is_true id doc : id_is id doc = true -> obj_get doc "id" = Some id.
Proof.
  unfold id_is. intros H. apply strict_equal_spec in H as (w & -> & Hs).
  now destruct Hs.
Qed.

Lemma has_id_object id doc : has_id id (JObj doc) = Ok (id_is id doc).
Proof. reflexivity. Qed.

Lemma matches_object inherits query doc :
  matches inherits query (JObj doc) = Ok (matchesb inherits query doc).
Proof.
  unfold matches, matchesb. apply every_pure. intros key.
  unfold same_field. cbn [get bind]. now destruct (obj_get doc key).
Qed.

Lemma strict_equal_undefined a : strict_equal a None = true <-> a = None.
Proof. destruct a as [[]|]; simpl; split; congruence. Qed.

Lemma matchesb_spec inherits query doc :
  matchesb inherits query doc = true <-> partial_matches inherits query doc.
Proof.
  unfold matchesb, partial_matches. rewrite forallb_forall.
  split; intros H k Hin; specialize (H k Hin).
  - destruct (partial_get query k) as [v|].
    + destruct (obj_get doc k) as [x|] eqn:Hd.
      * now apply strict_equal_spec.
      * now rewrite andb_false_r in H.
    + destruct (obj_get doc k) as [x|]; [now destruct x|].
      rewrite andb_true_r in H. now apply negb_true_iff in H.
  - destruct (partial_get query k) as [v|].
    + destruct H as (w & -> & Hs). apply strict_equal_spec. eauto.
    + destruct H as [-> ->]. reflexivity.
Qed.

(** *** Queries of JSON values *)

Lemma partial_keys_with_values query : partial_keys (with_values query) = keys query.
Proof. unfold partial_keys, with_values, keys. rewrite map_map. now apply map_ext. Qed.

Lemma partial_get_with_values query k :
  partial_get (with_values query) k = obj_get query k.
Proof.
  induction query as [|[k0 v0] query IH]; [reflexivity|].
  cbn. now destruct (String.eqb k0 k).
Qed.

(** On a query of JSON values the inherited members play no part. *)
Lemma partial_matches_with_values inherits query doc :
  partial_matches inherits (with_values query) doc <-> doc_matches query doc.
Proof.
  unfold partial_matches, doc_matches. split.
  - intros H k v Hq. specialize (H k). rewrite partial_keys_with_values in H.
    specialize (H (obj_get_In _ _ _ Hq)).
    now rewrite partial_get_with_values, Hq in H.
  - intros H k Hin. rewrite partial_keys_with_values in Hin.
    rewrite partial_get_with_values.
    destruct (In_obj_get _ _ Hin) as (v & Hq). rewrite Hq. auto.
Qed.

(** In [update], the lookup that follows the write answers on every store
    that the merge has produced: once the file is written the call does not
    throw. *)
Lemma update_lookup_total id updates items : forall db,
  map_r (fun doc =>
           bind (has_id id doc)
             (fun b => Ok (if b
                           then JObj (spread (spread [] (own_properties doc)) updates)
                           else doc))) items = Ok db ->
  exists found, find_r (has_id id) db = Ok found.
Proof.
  induction items as [|x items IH]; intros db; cbn [map_r].
  - intros [= <-]. now exists None.
  - destruct (has_id id x) as [b|e] eqn:Hx; [|discriminate]. cbn [bind].
    destruct (map_r _ items) as [ys|e]; [|discriminate]. cbn [bind].
    intros [= <-]. cbn [find_r]. destruct b.
    + rewrite has_id_object. cbn [bind]. destruct (id_is id _); eauto.
    + rewrite Hx. cbn [bind]. now apply IH.
Qed.

(** *** Well-formed stores *)

Lemma well_formed_objects docs :
  well_formed (JArr (map JObj docs)) = true
  <-> forall doc, In doc docs -> well_formed (JObj doc) = true.
Proof.
  split; intros H.
  - intros doc Hin. cbn [well_formed] in H. rewrite forallb_forall in H.
    apply (H (JObj doc)), in_map, Hin.
  - cbn [well_formed]. apply forallb_forall. intros v Hin.
    apply in_map_iff in Hin as (doc & <- & Hin). auto.
Qed.

Lemma spread_copy doc : well_formed (JObj doc) = true -> spread [] doc = doc.
Proof.
  cbn [well_formed]. intros H. apply andb_true_iff in H as [H _].
  now apply of_members_distinct.
Qed.

(** *** Hexadecimal letters in upper case *)

Lemma value_upper_digit c : Hex.value (upper_digit c) = Hex.value c.
Proof. destruct c as [[] [] [] [] [] [] [] []]; reflexivity. Qed.

Lemma colon_upper_digit c : Ascii.eqb (upper_digit c) ":" = Ascii.eqb c ":".
Proof. destruct c as [[] [] [] [] [] [] [] []]; reflexivity. Qed.

(** Decoding a hexadecimal text does not look at the case of its letters. *)
Lemma from_upper s : Hex.from (upper s) = Hex.from s.
Proof.
  revert s. fix IH 1. intros [|a [|b s]]; try reflexivity.
  cbn [upper Hex.from]. now rewrite !value_upper_digit, IH.
Qed.

Lemma occurs_upper s : occurs ":" (upper s) = occurs ":" s.
Proof.
  induction s as [|c s IH]; [reflexivity|].
  cbn [upper occurs]. now rewrite colon_upper_digit, IH.
Qed.

(** *** Documents and their ids *)

Lemma unique_id_split id docs :
  unique_ids docs ->
  (exists doc, In doc docs /\ id_is id doc = true) ->
  exists l1 doc l2,
    docs = (l1 ++ doc :: l2)%list /\ id_is id doc = true
    /\ filter (fun x => negb (id_is id x)) docs = (l1 ++ l2)%list.
Proof.
  intros Hu (doc & Hin & Hid).
  destruct (in_split _ _ Hin) as (l1 & l2 & ->).
  exists l1, doc, l2. split; [reflexivity|]. split; [exact Hid|].
  unfold unique_ids in Hu. rewrite map_app in Hu. cbn [map] in Hu.
  apply NoDup_remove_2 in Hu. rewrite <- map_app in Hu.
  assert (forall x, In x (l1 ++ l2)%list -> negb (id_is id x) = true) as Hothers.
  { intros x Hx. destruct (id_is id x) eqn:E; [|reflexivity].
    exfalso. apply Hu. apply id_is_true in E, Hid. rewrite Hid, <- E.
    exact (in_map (fun doc => obj_get doc "id") _ x Hx). }
  rewrite filter_app. cbn [filter]. rewrite Hid. cbn [negb].
  rewrite <- filter_app. now apply filter_all.
Qed.

Lemma obj_set_well_formed o k v :
  well_formed (JObj o) = true -> well_formed v = true ->
  well_formed (JObj (obj_set o k v)) = true.
Proof.
  cbn [well_formed]. intros H Hv. apply andb_true_iff in H as [Hd Hvals].
  apply andb_true_iff. split.
  - apply distinct_NoDup, obj_set_NoDup. now apply distinct_NoDup.
  - now apply obj_set_values.
Qed.

Lemma find_first {A} (g : A -> bool) (h : A -> A) l1 x l2 :
  (forall y, In y l1 -> g (h y) = false) -> g (h x) = true ->
  List.find g (map h (l1 ++ x :: l2)) = Some (h x).
Proof.
  intros Hl Hx. induction l1 as [|y l1 IH]; simpl.
  - now rewrite Hx.
  - rewrite (Hl y (or_introl eq_refl)). apply IH. intros z Hz. apply Hl. now right.
Qed.

Lemma find_none {A} (g : A -> bool) l :
  (forall y, In y l -> g y = false) -> List.find g l = None.
Proof.
  induction l as [|y l IH]; simpl; intros H; [reflexivity|].
  rewrite (H y (or_introl eq_refl)). apply IH. intros z Hz. apply H. now right.
Qed.

(** A merge that keeps the id leaves the document under its id. *)
Lemma id_is_spread id doc updates :
  NoDup (keys updates) -> keeps_id id updates ->
  id_is id doc = true -> id_is id (spread doc updates) = true.
Proof.
  intros Hnd Hk Hid. unfold id_is. rewrite (obj_get_spread updates doc Hnd "id").
  destruct Hk as [Hnone | Hsame].
  - now rewrite Hnone.
  - destruct (obj_get updates "id"); [exact Hsame | discriminate].
Qed.

(** A merge that brings another id takes the document away from its id. *)
Lemma id_is_spread_other id doc updates v :
  NoDup (keys updates) -> obj_get updates "id" = Some v ->
  strict_equal (Some v) (Some id) = false ->
  id_is id (spread doc updates) = false.
Proof.
  intros Hnd Hv Hne. unfold id_is.
  now rewrite (obj_get_spread updates doc Hnd "id"), Hv.
Qed.

End CrudFacts.

(** ** The store *)

Import Text TextFacts JSON JSONFacts JsonDB Spec StoreFacts CrudFacts.
Import ToyCryptoFacts ToyGcmFacts.

(** *** C2 *)

(** C2. Envelope round trip: for every well-formed value [S] and every
    configuration, with or without a password, reading the disk that
    [_writeDB] produced for [S] returns [S] itself, documents in the same
    order.  The write succeeds without a password, and with one as soon as
    key derivation and the cipher do. *)
Theorem envelope_round_trip (lib : CryptoLib) (this : JsonDB.t)
        (rnd : entropy) (S : json) :
  cipher_correct lib -> well_formed S = true ->
  (forall d', _writeDB lib this rnd S = Ok d' -> _readDB lib this d' = Ok S)
  /\ (truthy (password this) = None ->
      exists d', _writeDB lib this rnd S = Ok d')
  /\ (forall pw key ciphertext authTag,
        truthy (password this) = Some pw ->
        _deriveKey lib this pw (Hex.toString (salt_bytes rnd)) = Ok key ->
        cipher lib (algorithm this) key (iv_bytes rnd) (stringify S 2)
        = Ok (ciphertext, authTag) ->
        exists d', _writeDB lib this rnd S = Ok d').
Proof.
  intros Hlib Hwf. repeat split.
  - intros d' Hw. exact (readDB_writeDB lib this rnd S d' Hlib Hwf Hw).
  - intros Hpw. eexists. now apply writeDB_plain.
  - intros pw key ciphertext authTag Hpw Hk Hc. unfold _writeDB.
    rewrite Hpw, Hk. cbn [bind]. unfold _encryptWithKey. rewrite Hc.
    cbn [bind]. eexists. reflexivity.
Qed.

Lemma envelope_round_trip_witness :
  (exists d', _writeDB ToyCrypto.lib Sample.locked Sample.rnd Sample.store = Ok d'
              /\ _readDB ToyCrypto.lib Sample.locked d' = Ok Sample.store)
  /\ _readDB ToyCrypto.lib Sample.plain Sample.plain_disk = Ok Sample.store.
Proof.
  destruct (envelope_round_trip ToyCrypto.lib Sample.locked Sample.rnd Sample.store
              toy_correct eq_refl) as (Hread & _ & Hwrite).
  destruct (envelope_round_trip ToyCrypto.lib Sample.plain Sample.rnd Sample.store
              toy_correct eq_refl) as (Hread' & _ & _).
  split.
  - eexists. split; [reflexivity|]. apply Hread. reflexivity.
  - apply Hread'. reflexivity.
Defined.

(** *** C1 *)

(** C1. [changePassword] is all or nothing.  If [_readDB] throws under the
    supplied old password, the call throws [Invalid old password. Password
    change aborted.], the instance has its password back and the disk is
    untouched, so that opening the file afterwards with the options it was
    opened with gives an instance that reads the data that was there.  If
    [_readDB] returns, the new password is adopted and the data written
    under it. *)
Theorem changePassword_all_or_nothing (lib : CryptoLib) (this : JsonDB.t)
        (rnd : entropy) (p : option payload) (d : disk) :
  let oldPassword := match p with Some p => oldPassword p | None => None end in
  let newPassword := match p with Some p => newPassword p | None => None end in
  let '(r, this', d') := changePassword lib this rnd p d in
  (forall e, _readDB lib (set_password this oldPassword) d = Throw e ->
     r = Throw (Error "Invalid old password. Password change aborted.")
     /\ this' = this /\ d' = d
     /\ (forall o rnd0 rnd1 S,
           constructor lib o rnd0 d = Ok (this, d) ->
           _readDB lib this d = Ok S ->
           exists again, constructor lib o rnd1 d' = Ok (again, d')
                         /\ _readDB lib again d' = Ok S))
  /\ (forall data, _readDB lib (set_password this oldPassword) d = Ok data ->
        this' = set_password this newPassword
        /\ ((r = Ok tt
             /\ _writeDB lib (set_password this newPassword) rnd data = Ok d')
            \/ (exists e, r = Throw e /\ d' = d
                /\ _writeDB lib (set_password this newPassword) rnd data
                   = Throw e))).
Proof.
  intros oldPassword newPassword. unfold changePassword.
  fold oldPassword newPassword.
  assert (set_password (set_password this oldPassword) newPassword
          = set_password this newPassword) as -> by reflexivity.
  rewrite set_password_restore.
  destruct (_readDB lib (set_password this oldPassword) d) as [data|e0].
  - destruct (_writeDB lib (set_password this newPassword) rnd data) as [w|e1] eqn:Hw.
    + split; [discriminate|]. intros data' [= <-]. rewrite Hw. auto.
    + split; [discriminate|]. intros data' [= <-]. rewrite Hw.
      split; [reflexivity|]. right. now exists e1.
  - split; [|discriminate]. intros e _. repeat split.
    intros o rnd0 rnd1 S Hopen HS. destruct d as [text|]; [|discriminate].
    exists this. split; [exact Hopen | exact HS].
Qed.

Lemma changePassword_all_or_nothing_witness :
  let '(r, this', d') :=
    changePassword ToyCrypto.lib Sample.locked Sample.rnd
      (Some Sample.wrong_then_new) Sample.locked_disk in
  r = Throw (Error "Invalid old password. Password change aborted.")
  /\ this' = Sample.locked /\ d' = Sample.locked_disk
  /\ exists again,
       constructor ToyCrypto.lib Sample.open_locked Sample.rnd d' = Ok (again, d')
       /\ _readDB ToyCrypto.lib again d' = Ok Sample.store.
Proof.
  pose proof (changePassword_all_or_nothing ToyCrypto.lib Sample.locked
                Sample.rnd (Some Sample.wrong_then_new) Sample.locked_disk) as H.
  cbv zeta in H.
  destruct (changePassword ToyCrypto.lib Sample.locked Sample.rnd
              (Some Sample.wrong_then_new) Sample.locked_disk) as [[r this'] d'].
  destruct H as [Hfail _].
  destruct (Hfail (Error "Unsupported state or unable to authenticate data")
              eq_refl) as (Hr & Hthis & Hd & Hopen).
  split; [exact Hr|]. split; [exact Hthis|]. split; [exact Hd|].
  apply (Hopen Sample.open_locked Sample.rnd Sample.rnd Sample.store);
    reflexivity.
Defined.

(** *** C10 *)

(** C10. [changePassword] does not validate its payload: whenever
    [_readDB] returns under the old password, the instance holds
    [payload.newPassword] afterwards, whatever it is.  When it is absent or
    [undefined] the call succeeds, the file holds the documents as plain
    JSON text, and every later write stores plain JSON text. *)
Theorem changePassword_adopts_unchecked (lib : CryptoLib) (this : JsonDB.t)
        (rnd : entropy) (p : option payload) (d : disk) (data : json) :
  let oldPassword := match p with Some p => oldPassword p | None => None end in
  let newPassword := match p with Some p => newPassword p | None => None end in
  _readDB lib (set_password this oldPassword) d = Ok data ->
  let '(r, this', d') := changePassword lib this rnd p d in
  password this' = newPassword
  /\ (newPassword = None ->
      r = Ok tt
      /\ d' = Some (stringify data 2)
      /\ forall rnd' data',
           _writeDB lib this' rnd' data' = Ok (Some (stringify data' 2))).
Proof.
  intros oldPassword newPassword Hd. unfold changePassword.
  fold oldPassword newPassword. rewrite Hd.
  assert (set_password (set_password this oldPassword) newPassword
          = set_password this newPassword) as -> by reflexivity.
  destruct (_writeDB lib (set_password this newPassword) rnd data) as [d'|e] eqn:Hw.
  - split; [reflexivity|]. intros Hnew.
    rewrite writeDB_plain in Hw by (simpl; now rewrite Hnew).
    injection Hw as <-. repeat split.
    intros rnd' data'. apply writeDB_plain. simpl. now rewrite Hnew.
  - split; [reflexivity|]. intros Hnew.
    rewrite writeDB_plain in Hw by (simpl; now rewrite Hnew). discriminate.
Qed.

Lemma changePassword_adopts_unchecked_witness :
  let '(r, this', d') :=
    changePassword ToyCrypto.lib Sample.locked Sample.rnd
      (Some Sample.old_then_nothing) Sample.locked_disk in
  password this' = None
  /\ (@None string = None ->
      r = Ok tt
      /\ d' = Some (stringify Sample.store 2)
      /\ forall rnd' data',
           _writeDB ToyCrypto.lib this' rnd' data' = Ok (Some (stringify data' 2))).
Proof.
  exact (changePassword_adopts_unchecked ToyCrypto.lib Sample.locked Sample.rnd
           (Some Sample.old_then_nothing) Sample.locked_disk Sample.store eq_refl).
Defined.

(** *** C9 *)

(** C9, as the code has it.  Without a password, a text that [JSON.parse]
    rejects makes [_readDB] throw [SyntaxError], and a text that it accepts
    is returned as parsed, array or not.  With a password, a text without a
    colon makes [_readDB] throw [Invalid file format], and once the key is
    derived from the part before the first colon, a remainder that does not
    split into three parts at its colons makes it throw [Invalid encrypted
    text format]. *)
Theorem decode_shape_errors (lib : CryptoLib) (this : JsonDB.t) (text : string) :
  (truthy (password this) = None ->
   (forall e, JSON.parse text = Throw e ->
              _readDB lib this (Some text) = Throw SyntaxError)
   /\ (forall v, JSON.parse text = Ok v -> _readDB lib this (Some text) = Ok v))
  /\ (forall pw, truthy (password this) = Some pw ->
      (occurs ":" text = false ->
       _readDB lib this (Some text) = Throw (Error "Invalid file format"))
      /\ (forall salt rest key,
            text = salt ++ ":" ++ rest -> occurs ":" salt = false ->
            _deriveKey lib this pw salt = Ok key ->
            length (split rest ":") <> 3 ->
            _readDB lib this (Some text)
            = Throw (Error "Invalid encrypted text format"))).
Proof.
  split.
  - intros Hpw. rewrite (readDB_plain lib this text Hpw). split.
    + intros e. unfold JSON.parse.
      destruct (parse_value _ _) as [[v r]|]; [|reflexivity].
      destruct (skip_ws r); [discriminate | reflexivity].
    + auto.
  - intros pw Hpw. split.
    + intros Hn. unfold _readDB. cbn [readFileSync bind]. rewrite Hpw.
      apply indexOf_absent in Hn. now rewrite Hn.
    + intros salt rest key -> Hs Hk Hparts. unfold _readDB.
      cbn [readFileSync bind]. rewrite Hpw.
      change (":" ++ rest) with (String ":" rest).
      destruct (substring_salt salt rest ":" Hs) as [Hsalt Hrest].
      cbv zeta in Hsalt, Hrest. rewrite Hsalt, Hrest.
      rewrite indexOf_first by exact Hs.
      destruct (Z.eqb_spec (Z.of_nat (String.length salt)) (-1)); [lia|].
      rewrite Hk. cbn [bind]. unfold _decryptWithKey.
      destruct (Nat.eqb_spec (length (split rest ":")) 3); [contradiction|].
      reflexivity.
Qed.

Lemma decode_shape_errors_witness :
  _readDB ToyCrypto.lib Sample.plain (Some "[1, 2") = Throw SyntaxError
  /\ _readDB ToyCrypto.lib Sample.locked (Some "0a0b0c0d")
     = Throw (Error "Invalid file format")
  /\ _readDB ToyCrypto.lib Sample.locked (Some "0a0b:0c0d:0e0f")
     = Throw (Error "Invalid encrypted text format").
Proof.
  destruct (decode_shape_errors ToyCrypto.lib Sample.plain "[1, 2") as [Hplain _].
  destruct (decode_shape_errors ToyCrypto.lib Sample.locked "0a0b0c0d") as [_ Hnone].
  destruct (decode_shape_errors ToyCrypto.lib Sample.locked "0a0b:0c0d:0e0f")
    as [_ Hparts].
  split; [|split].
  - apply (proj1 (Hplain eq_refl) SyntaxError). reflexivity.
  - apply (proj1 (Hnone "old" eq_refl)). reflexivity.
  - apply (proj2 (Hparts "old" eq_refl) "0a0b" "0c0d:0e0f"
             (list_byte_of_string "old0a0b")); try reflexivity.
    simpl. discriminate.
Defined.

(** C9 as stated fails: the text [{}] is valid JSON and not an array, and
    [_readDB] returns the empty object for it. *)
Lemma decode_accepts_non_array :
  _readDB ToyCrypto.lib Sample.plain (Some "{}") = Ok (JObj [])
  /\ _readDB ToyCrypto.lib Sample.plain (Some "5") = Ok (JNum 5).
Proof. split; reflexivity. Qed.

(** *** C5 *)

(** C5 fails on the code.  [_writeDB] stores the tag as the hexadecimal
    text of its bytes.  When one character of that text is replaced by a
    character that is no hexadecimal digit and no colon, [Buffer.from]
    stops at it, and [_decryptWithKey] hands [setAuthTag] the bytes before
    it, fewer than were written, without a look at their number: whatever
    the library, reading the altered file comes down to [decipher] on the
    shortened tag.  Where the bytes left make a length that GCM allows, a
    library that checks the tag over the length it is given accepts them,
    and [_readDB] returns the documents of the altered file. *)
Theorem short_tag_accepted (lib : CryptoLib) (this : JsonDB.t) (rnd : entropy)
        (data : json) (pw : string) (key encrypted authTag : list Byte.byte)
        (i : nat) (c : ascii) :
  truthy (password this) = Some pw ->
  let salt := Hex.toString (salt_bytes rnd) in
  let file (tag : string) : disk :=
    Some (salt ++ ":" ++ Hex.toString (iv_bytes rnd) ++ ":" ++ tag ++ ":"
          ++ Hex.toString encrypted) in
  _deriveKey lib this pw salt = Ok key ->
  cipher lib (algorithm this) key (iv_bytes rnd) (stringify data 2)
  = Ok (encrypted, authTag) ->
  i < 2 * length authTag ->
  Hex.value c = None -> c <> ":"%char ->
  _writeDB lib this rnd data = Ok (file (Hex.toString authTag))
  /\ Hex.from (alter i c (Hex.toString authTag)) = firstn (i / 2) authTag
  /\ firstn (i / 2) authTag <> authTag
  /\ _readDB lib this (file (alter i c (Hex.toString authTag)))
     = bind (decipher lib (algorithm this) key (iv_bytes rnd)
               (firstn (i / 2) authTag) encrypted)
         JSON.parse
  /\ (cipher_correct lib -> accepts_short_tags lib ->
      well_formed data = true -> gcm_tag_length (i / 2) = true ->
      _readDB lib this (file (alter i c (Hex.toString authTag))) = Ok data).
Proof.
  intros Hpw salt file Hk Hc Hi Hv Hcolon.
  assert (Hex.from (alter i c (Hex.toString authTag)) = firstn (i / 2) authTag)
    as Hfrom by now apply HexFacts.from_alter.
  assert (i / 2 < length authTag) as Hlt
      by (apply Nat.Div0.div_lt_upper_bound; lia).
  assert (_readDB lib this (file (alter i c (Hex.toString authTag)))
          = bind (decipher lib (algorithm this) key (iv_bytes rnd)
                    (firstn (i / 2) authTag) encrypted)
              JSON.parse) as Hread.
  { unfold file, salt. rewrite (readDB_parts lib this pw);
      [| exact Hpw | apply HexFacts.toString_no_colon ..
       | apply HexFacts.occurs_alter;
         [exact Hcolon | apply HexFacts.toString_no_colon]
       | apply HexFacts.toString_no_colon].
    fold salt. rewrite Hk. cbn [bind].
    now rewrite Hfrom, !HexFacts.from_toString. }
  split; [|split; [exact Hfrom | split; [|split; [exact Hread|]]]].
  - unfold _writeDB. rewrite Hpw. fold salt. rewrite Hk. cbn [bind].
    unfold _encryptWithKey. now rewrite Hc.
  - intros E. apply (f_equal (@length _)) in E.
    rewrite length_firstn in E. lia.
  - intros Hlib Hshort Hwf Hn. rewrite Hread.
    rewrite (Hshort _ _ _ _ _ _ _ (Hlib _ _ _ _ _ _ Hc) Hn) by lia.
    cbn [bind]. now apply parse_stringify.
Qed.

Lemma short_tag_accepted_witness :
  _writeDB ToyGcm.lib Sample.locked Sample.rnd (JArr [])
  = Ok (Some ("3a910cf452e718bd662fa07bc34d851e:9f02d64b73e108ac35c75ab0:"
              ++ "6f6c6433613931306366343532653731:5b5d"))
  /\ Hex.from "6f6c6433z13931306366343532653731"
     = [Byte.x6f; Byte.x6c; Byte.x64; Byte.x33]
  /\ _readDB ToyGcm.lib Sample.locked
       (Some ("3a910cf452e718bd662fa07bc34d851e:9f02d64b73e108ac35c75ab0:"
              ++ "6f6c6433z13931306366343532653731:5b5d"))
     = Ok (JArr []).
Proof.
  destruct (short_tag_accepted ToyGcm.lib Sample.locked Sample.rnd (JArr []) "old"
              (list_byte_of_string
                 ("old" ++ Hex.toString (salt_bytes Sample.rnd)))
              (list_byte_of_string "[]")
              (ToyGcm.tag
                 (list_byte_of_string
                    ("old" ++ Hex.toString (salt_bytes Sample.rnd)))
                 (iv_bytes Sample.rnd) (list_byte_of_string "[]"))
              8 "z"%char
              eq_refl eq_refl eq_refl ltac:(vm_compute; lia) eq_refl
              ltac:(discriminate))
    as (Hw & Hfrom & _ & _ & Hr).
  split; [exact Hw | split; [exact Hfrom|]].
  exact (Hr toy_gcm_correct toy_gcm_short_tags eq_refl eq_refl).
Defined.

(** *** C6 *)

(** C6, as the code has it.  On a store file that decodes to an array of
    documents: for a query of JSON values, [find] returns, in store order,
    exactly the documents in which every field of the query is present and
    strictly equal to the query's value; for any query, a field that holds
    [undefined] asks instead that the document have no member of that
    name; a document that lacks a field queried with a value is not in the
    result, and [find({k: undefined})] returns the documents that lack
    [k]; with the empty query, or with none, [find] returns every
    document. *)
Theorem find_correct (lib : CryptoLib) (inherits : json -> string -> bool)
        (this : JsonDB.t) (d : disk) (docs : list object) :
  _readDB lib this d = Ok (JArr (map JObj docs)) ->
  (forall query : object,
     exists test : object -> bool,
       (forall doc, test doc = true <-> doc_matches query doc)
       /\ find lib inherits this (Some (with_values query)) d
          = Ok (map JObj (filter test docs)))
  /\ (forall query : partial,
        exists test : object -> bool,
          (forall doc, test doc = true <-> partial_matches inherits query doc)
          /\ find lib inherits this (Some query) d
             = Ok (map JObj (filter test docs)))
  /\ (forall query found doc k v,
        find lib inherits this (Some query) d = Ok found ->
        In k (partial_keys query) -> partial_get query k = Some v ->
        obj_get doc k = None -> ~ In (JObj doc) found)
  /\ (forall k,
        find lib inherits this (Some [(k, None)]) d
        = Ok (map JObj (filter (lacks inherits k) docs)))
  /\ find lib inherits this (Some []) d = Ok (map JObj docs)
  /\ find lib inherits this None d = Ok (map JObj docs).
Proof.
  intros Hr.
  assert (forall query,
            find lib inherits this (Some query) d
            = Ok (map JObj (filter (matchesb inherits query) docs))) as Hfind.
  { intros query. unfold find. rewrite Hr. cbn [bind as_array].
    apply filter_r_objects, matches_object. }
  split; [|split; [|split; [|split; [|split]]]].
  - intros query. exists (matchesb inherits (with_values query)).
    split; [|apply Hfind].
    intros doc. rewrite matchesb_spec. apply partial_matches_with_values.
  - intros query. exists (matchesb inherits query). split; [|apply Hfind].
    intros doc. apply matchesb_spec.
  - intros query found doc k v Hf Hin Hq Hnone Hdoc.
    rewrite Hfind in Hf. injection Hf as <-.
    apply in_map_iff in Hdoc as (doc' & [= ->] & Hdoc).
    apply filter_In in Hdoc as [_ Hm]. apply matchesb_spec in Hm.
    specialize (Hm k Hin). rewrite Hq in Hm.
    destruct Hm as (w & Hw & _). congruence.
  - intros k. rewrite Hfind. do 2 f_equal. apply filter_ext. intros doc.
    unfold matchesb, lacks. cbn [partial_keys map fst forallb partial_get].
    rewrite String.eqb_refl.
    destruct (obj_get doc k) as [x|]; [now destruct x|].
    now destruct (inherits (JObj doc) k).
  - rewrite Hfind. now rewrite filter_all.
  - unfold find. rewrite Hr. cbn [bind as_array].
    rewrite (filter_r_objects _ (matchesb inherits [])) by apply matches_object.
    now rewrite filter_all.
Qed.

Lemma find_correct_witness :
  find ToyCrypto.lib Sample.inherits Sample.locked (Some []) Sample.locked_disk
  = Ok [JObj Sample.alice; JObj Sample.bob]
  /\ exists test : object -> bool,
       (forall doc, test doc = true <-> doc_matches [("name", JStr "Bob")] doc)
       /\ find ToyCrypto.lib Sample.inherits Sample.locked
            (Some [("name", Some (JStr "Bob"))]) Sample.locked_disk
          = Ok (map JObj (filter test [Sample.alice; Sample.bob])).
Proof.
  destruct (find_correct ToyCrypto.lib Sample.inherits Sample.locked
              Sample.locked_disk [Sample.alice; Sample.bob] eq_refl)
    as (Hq & _ & _ & _ & Hall & _).
  split; [exact Hall | exact (Hq [("name", JStr "Bob")])].
Defined.

(** C6 as stated fails: no document of the sample store has a field [zip],
    and [find({zip: undefined})] returns them both. *)
Lemma find_undefined_returns_lacking :
  obj_get Sample.alice "zip" = None
  /\ obj_get Sample.bob "zip" = None
  /\ find ToyCrypto.lib Sample.inherits Sample.plain (Some [("zip", None)])
       Sample.plain_disk
     = Ok [JObj Sample.alice; JObj Sample.bob].
Proof. split; [|split]; reflexivity. Qed.

(** *** C7 *)

(** C7. On a store file that decodes to an array of documents, [delete]
    answers [true] exactly when some document had the id, and the store it
    writes is the old one without the documents of that id: when none had
    it the store is as it was; when one had it, in a store without repeated
    ids, that one document is removed and the others stay as they were, in
    order. *)
Theorem delete_correct (lib : CryptoLib) (this : JsonDB.t) (rnd : entropy)
        (id : json) (d d' : disk) (docs : list object) :
  cipher_correct lib ->
  _readDB lib this d = Ok (JArr (map JObj docs)) ->
  let kept := filter (fun doc => negb (id_is id doc)) docs in
  _writeDB lib this rnd (JArr (map JObj kept)) = Ok d' ->
  exists removed : bool,
    delete lib this rnd id d = Ok (removed, d')
    /\ (removed = true <-> exists doc, In doc docs /\ id_is id doc = true)
    /\ _readDB lib this d' = Ok (JArr (map JObj kept))
    /\ (removed = false -> kept = docs)
    /\ (removed = true -> unique_ids docs ->
        exists l1 doc l2,
          docs = (l1 ++ doc :: l2)%list /\ id_is id doc = true
          /\ kept = (l1 ++ l2)%list).
Proof.
  intros Hlib Hr kept Hw.
  exists (negb (length docs =? length kept)%nat).
  assert (negb (length docs =? length kept)%nat = true
          <-> exists doc, In doc docs /\ id_is id doc = true) as Hremoved.
  { rewrite negb_true_iff, Nat.eqb_neq. unfold kept.
    split.
    - intros H.
      destruct (proj1 (filter_shorter (fun doc => negb (id_is id doc)) docs))
        as (x & Hx & Hf); [congruence|]. exists x. split; [exact Hx|].
      now apply negb_false_iff in Hf.
    - intros (x & Hx & Hf) E.
      apply (proj2 (filter_shorter (fun doc => negb (id_is id doc)) docs));
        [|now symmetry].
      exists x. split; [exact Hx | now rewrite Hf]. }
  split; [|split; [exact Hremoved | split; [|split]]].
  - unfold delete. rewrite Hr. cbn [bind as_array].
    rewrite (filter_r_objects _ (fun doc => negb (id_is id doc)))
      by (intros doc; reflexivity).
    cbn [bind]. fold kept. rewrite Hw. cbn [bind]. now rewrite !length_map.
  - apply (readDB_writeDB lib this rnd _ d' Hlib); [|exact Hw].
    apply well_formed_objects. intros doc Hin. apply filter_In in Hin as [Hin _].
    apply (proj1 (well_formed_objects docs)); [|exact Hin].
    exact (readDB_well_formed lib this d _ Hr).
  - intros Hf. apply negb_false_iff, Nat.eqb_eq in Hf. unfold kept in *.
    apply filter_all. intros x Hx. destruct (negb (id_is id x)) eqn:E; [reflexivity|].
    exfalso. apply (proj2 (filter_shorter (fun doc => negb (id_is id doc)) docs));
      [eauto | now symmetry].
  - intros Ht Hu. apply unique_id_split; [exact Hu | now apply Hremoved].
Qed.

Lemma delete_correct_witness :
  exists removed : bool,
    delete ToyCrypto.lib Sample.plain Sample.rnd (JNum 1701234567890)
      Sample.plain_disk
    = Ok (removed, Some (stringify (JArr [JObj Sample.bob]) 2))
    /\ (removed = true <->
        exists doc, In doc [Sample.alice; Sample.bob]
                    /\ id_is (JNum 1701234567890) doc = true).
Proof.
  destruct (delete_correct ToyCrypto.lib Sample.plain Sample.rnd
              (JNum 1701234567890) Sample.plain_disk
              (Some (stringify (JArr [JObj Sample.bob]) 2))
              [Sample.alice; Sample.bob] toy_correct eq_refl eq_refl)
    as (removed & Hdel & Hiff & _).
  exists removed. split; [exact Hdel | exact Hiff].
Defined.

(** *** C8 *)

(** C8 on the code.  On a store file that decodes to an array of
    documents, for every [updates]: every document with the given id gets
    the fields of [updates] put over its own, its other fields stay, and
    every other document is unchanged; when no document has the id, the
    store is written back as it was and [undefined] is returned.  The
    merged document of the first document with the id is returned when
    [updates] keeps the id (no [id] field, or one strictly equal to the
    given id).  When [updates] brings another id, the call answers
    [undefined] although it has merged and stored the document: the lookup
    after the merge goes by the old id. *)
Theorem update_merges (lib : CryptoLib) (this : JsonDB.t) (rnd : entropy)
        (id : json) (updates : object) (d d' : disk) (docs : list object) :
  cipher_correct lib ->
  _readDB lib this d = Ok (JArr (map JObj docs)) ->
  well_formed (JObj updates) = true ->
  let docs' :=
    map (fun doc => if id_is id doc then spread doc updates else doc) docs in
  _writeDB lib this rnd (JArr (map JObj docs')) = Ok d' ->
  exists returned,
    update lib this rnd id updates d = Ok (returned, d')
    /\ _readDB lib this d' = Ok (JArr (map JObj docs'))
    /\ Forall2 (fun doc doc' =>
                  if id_is id doc then merged doc updates doc' else doc' = doc)
               docs docs'
    /\ (keeps_id id updates ->
        forall l1 doc l2,
          docs = (l1 ++ doc :: l2)%list ->
          (forall x, In x l1 -> id_is id x = false) ->
          id_is id doc = true ->
          exists doc', returned = Some (JObj doc') /\ merged doc updates doc')
    /\ ((forall doc, In doc docs -> id_is id doc = false) ->
        returned = None /\ docs' = docs)
    /\ (forall v, obj_get updates "id" = Some v ->
                  strict_equal (Some v) (Some id) = false ->
                  returned = None).
Proof.
  intros Hlib Hr Hu docs' Hw.
  pose proof (readDB_well_formed lib this d _ Hr) as Hwf.
  pose proof (proj1 (well_formed_objects docs) Hwf) as Hdocs.
  assert (NoDup (keys updates)) as Hnd.
  { cbn [well_formed] in Hu. apply andb_true_iff in Hu as [Hu _].
    now apply distinct_NoDup. }
  assert (map (fun doc => if id_is id doc
                          then spread (spread [] doc) updates else doc) docs
          = docs') as Hmap.
  { apply map_ext_in. intros doc Hin.
    now rewrite (spread_copy doc (Hdocs doc Hin)). }
  exists (option_map JObj (List.find (id_is id) docs')).
  split; [|split; [|split; [|split; [|split]]]].
  - unfold update. rewrite Hr. cbn [bind as_array].
    rewrite (map_r_objects _
               (fun doc => if id_is id doc
                           then spread (spread [] doc) updates else doc))
      by (intros doc; rewrite has_id_object; cbn [bind own_properties];
          now destruct (id_is id doc)).
    cbn [bind]. rewrite Hmap, Hw. cbn [bind].
    rewrite (find_r_objects _ (id_is id)) by apply has_id_object.
    reflexivity.
  - apply (readDB_writeDB lib this rnd _ d' Hlib); [|exact Hw].
    apply well_formed_objects. intros doc' Hin. unfold docs' in Hin.
    apply in_map_iff in Hin as (doc & <- & Hin).
    destruct (id_is id doc); [|auto].
    apply spread_well_formed; [auto|].
    cbn [well_formed] in Hu. now apply andb_true_iff in Hu as [_ Hu].
  - unfold docs'. clear - Hnd.
    induction docs as [|doc docs IH]; simpl; constructor; [|exact IH].
    destruct (id_is id doc); [now apply obj_get_spread | reflexivity].
  - intros Hk l1 doc l2 -> Hl1 Hid. exists (spread doc updates).
    split; [|now apply obj_get_spread].
    unfold docs'.
    rewrite (find_first (id_is id)
               (fun doc => if id_is id doc then spread doc updates else doc)).
    + cbn [option_map]. now rewrite Hid.
    + intros y Hy. now rewrite (Hl1 y Hy), (Hl1 y Hy).
    + rewrite Hid. now apply id_is_spread.
  - intros Hnone.
    assert (docs' = docs) as E.
    { unfold docs'. rewrite <- (map_id docs) at 2. apply map_ext_in.
      intros doc Hin. now rewrite (Hnone doc Hin). }
    split; [|exact E]. rewrite E, find_none; auto.
  - intros v Hv Hne. rewrite find_none; [reflexivity|].
    intros doc' Hin. unfold docs' in Hin.
    apply in_map_iff in Hin as (doc & <- & Hin).
    destruct (id_is id doc) eqn:Hid; [|exact Hid].
    now apply (id_is_spread_other id doc updates v).
Qed.

Lemma update_merges_witness :
  id_is (JNum 1701234567890) Sample.alice = true
  /\ update ToyCrypto.lib Sample.plain Sample.rnd (JNum 1701234567890)
       [("id", JNum 7); ("age", JNum 26)] Sample.plain_disk
     = Ok (None,
           Some (stringify
                   (JArr [JObj [("id", JNum 7); ("name", JStr "Alice");
                                ("age", JNum 26)];
                          JObj Sample.bob]) 2))
  /\ exists doc',
       update ToyCrypto.lib Sample.plain Sample.rnd (JNum 1701234567891)
         [("age", JNum 32)] Sample.plain_disk
       = Ok (Some (JObj doc'),
             Some (stringify
                     (JArr [JObj Sample.alice;
                            JObj [("id", JNum 1701234567891);
                                  ("name", JStr "Bob"); ("age", JNum 32)]]) 2))
       /\ merged Sample.bob [("age", JNum 32)] doc'.
Proof.
  destruct (update_merges ToyCrypto.lib Sample.plain Sample.rnd
              (JNum 1701234567890) [("id", JNum 7); ("age", JNum 26)]
              Sample.plain_disk
              (Some (stringify
                       (JArr [JObj [("id", JNum 7); ("name", JStr "Alice");
                                    ("age", JNum 26)];
                              JObj Sample.bob]) 2))
              [Sample.alice; Sample.bob] toy_correct eq_refl eq_refl eq_refl)
    as (lost & Hlost & _ & _ & _ & _ & Hother).
  destruct (update_merges ToyCrypto.lib Sample.plain Sample.rnd
              (JNum 1701234567891) [("age", JNum 32)] Sample.plain_disk
              (Some (stringify
                       (JArr [JObj Sample.alice;
                              JObj [("id", JNum 1701234567891);
                                    ("name", JStr "Bob"); ("age", JNum 32)]]) 2))
              [Sample.alice; Sample.bob] toy_correct eq_refl eq_refl eq_refl)
    as (returned & Hup & _ & _ & Hret & _).
  split; [reflexivity|]. split.
  - rewrite <- (Hother (JNum 7) eq_refl eq_refl). exact Hlost.
  - destruct (Hret (or_introl eq_refl) [Sample.alice] Sample.bob [])
      as (doc' & -> & Hm); [reflexivity | | reflexivity |].
    + intros x [<-|[]]. reflexivity.
    + exists doc'. split; [exact Hup | exact Hm].
Defined.

(** *** C3 *)

(** C3 fails on the code: [update(1, {id: 2})] on the store [[{id: 1, a:
    0}]] stores the document under the id 2 and answers [undefined]. *)
Theorem update_reassigns_id (lib : CryptoLib) (rnd : entropy) :
  let before := JArr [JObj [("id", JNum 1); ("a", JNum 0)]] in
  let after := JArr [JObj [("id", JNum 2); ("a", JNum 0)]] in
  update lib Sample.plain rnd (JNum 1) [("id", JNum 2)]
    (Some (stringify before 2))
  = Ok (None, Some (stringify after 2))
  /\ _readDB lib Sample.plain (Some (stringify after 2)) = Ok after.
Proof. split; reflexivity. Qed.

(** *** C4 *)

(** C4 fails on the code: two inserts that read the same value of
    [Date.now()] give both documents that value as their id, and the store
    then holds two documents with one id. *)
Theorem insert_same_clock_same_id (lib : CryptoLib) (this : JsonDB.t)
        (rnd1 rnd2 : entropy) (now : Z) (document1 document2 r1 r2 : object)
        (d d1 d2 : disk) (docs : list json) :
  cipher_correct lib ->
  _readDB lib this d = Ok (JArr docs) ->
  well_formed (JObj document1) = true ->
  well_formed (JObj document2) = true ->
  insert lib this rnd1 now document1 d = Ok (r1, d1) ->
  insert lib this rnd2 now document2 d1 = Ok (r2, d2) ->
  obj_get r1 "id" = Some (JNum now)
  /\ obj_get r2 "id" = Some (JNum now)
  /\ _readDB lib this d2 = Ok (JArr (docs ++ [JObj r1; JObj r2])).
Proof.
  intros Hlib Hr Hw1 Hw2 H1 H2.
  pose proof (readDB_well_formed lib this d _ Hr) as Hwf.
  unfold insert in H1. rewrite Hr in H1. cbn [bind as_array] in H1.
  destruct (_writeDB lib this rnd1 _) as [w1|] eqn:E1; [|discriminate].
  cbn [bind] in H1. injection H1 as <- <-.
  assert (well_formed (JArr (docs ++ [JObj (obj_set document1 "id" (JNum now))]))
          = true) as Hwf1.
  { cbn [well_formed] in Hwf |- *. rewrite forallb_app, Hwf. cbn [forallb].
    now rewrite (obj_set_well_formed document1 "id" (JNum now) Hw1 eq_refl). }
  pose proof (readDB_writeDB lib this rnd1 _ _ Hlib Hwf1 E1) as Hr1.
  unfold insert in H2. rewrite Hr1 in H2. cbn [bind as_array] in H2.
  destruct (_writeDB lib this rnd2 _) as [w2|] eqn:E2; [|discriminate].
  cbn [bind] in H2. injection H2 as <- <-.
  rewrite !obj_get_obj_set, String.eqb_refl. split; [reflexivity|].
  split; [reflexivity|].
  rewrite <- List.app_assoc in E2. cbn [app] in E2.
  apply (readDB_writeDB lib this rnd2 _ _ Hlib); [|exact E2].
  cbn [well_formed] in Hwf |- *. rewrite forallb_app, Hwf. cbn [forallb].
  now rewrite (obj_set_well_formed document1 "id" (JNum now) Hw1 eq_refl),
              (obj_set_well_formed document2 "id" (JNum now) Hw2 eq_refl).
Qed.

Lemma insert_same_clock_same_id_witness :
  let first := [("name", JStr "Alice"); ("id", JNum 1701234567890)] in
  let second := [("name", JStr "Bob"); ("id", JNum 1701234567890)] in
  obj_get first "id" = Some (JNum 1701234567890)
  /\ obj_get second "id" = Some (JNum 1701234567890)
  /\ _readDB ToyCrypto.lib Sample.plain
       (Some (stringify (JArr [JObj first; JObj second]) 2))
     = Ok (JArr ([] ++ [JObj first; JObj second])).
Proof.
  intros first second.
  exact (insert_same_clock_same_id ToyCrypto.lib Sample.plain Sample.rnd
           Sample.rnd 1701234567890
           [("name", JStr "Alice")] [("name", JStr "Bob")] first second
           (Some "[]") (Some (stringify (JArr [JObj first]) 2))
           (Some (stringify (JArr [JObj first; JObj second]) 2)) []
           toy_correct eq_refl eq_refl eq_refl eq_refl eq_refl).
Defined.

(* ================================================================== *)
(** * Part III: further properties of the store *)
(* ================================================================== *)

Module OperationFacts.


(** *** The instance that the constructor builds *)



(** The instance that [constructor] returns is read off the options. *)
Lemma constructor_this lib o rnd d this d' :
  constructor lib o rnd d = Ok (this, d') ->
  this = {| password := or_string (opt_password o) None;
            iterations := or_number (opt_iterations o) 100000;
            digest := match or_string (opt_digest o) (Some "sha256") with
                      | Some s => s | None => "sha256" end;
            algorithm := match or_string (opt_algorithm o) (Some "aes-256-gcm") with
                         | Some s => s | None => "aes-256-gcm" end |}.
Proof.
  unfold constructor. destruct d as [text|].
  - now intros [= <- _].
  - cbv zeta. destruct (truthy _) as [pw|].
    + destruct (_deriveKey _ _ _ _) as [key|]; [|discriminate]. cbn [bind].
      destruct (_encryptWithKey _ _ _ _ _) as [enc|]; [|discriminate]. cbn [bind].
      now intros [= <- _].
    + now intros [= <- _].
Qed.

(** *** An encrypted text and its three parts *)

Lemma encryptWithKey_parts lib this iv text key encrypted :
  _encryptWithKey lib this iv text key = Ok encrypted ->
  exists ciphertext authTag,
    cipher lib (algorithm this) key iv text = Ok (ciphertext, authTag)
    /\ encrypted = Hex.toString iv ++ ":" ++ Hex.toString authTag ++ ":"
                   ++ Hex.toString ciphertext.
Proof.
  unfold _encryptWithKey.
  destruct (cipher lib (algorithm this) key iv text) as [[ciphertext authTag]|e];
    [|discriminate].
  cbn [bind]. intros [= <-]. now exists ciphertext, authTag.
Qed.

(** *** Hexadecimal text is no JSON text *)

Lemma all_hex_app a b : all_hex (a ++ b) = all_hex a && all_hex b.
Proof.
  induction a as [|c a IH]; [reflexivity|]. simpl.
  destruct (Hex.value c); [exact IH | reflexivity].
Qed.

Lemma of_byte_all_hex b : all_hex (Hex.of_byte b) = true.
Proof. destruct b; reflexivity. Qed.

Lemma toString_all_hex buffer : all_hex (Hex.toString buffer) = true.
Proof.
  induction buffer as [|b l IH]; [reflexivity|].
  cbn [Hex.toString]. now rewrite all_hex_app, of_byte_all_hex, IH.
Qed.

(** What a hexadecimal digit is not. *)
Lemma hex_digit_class c :
  Hex.value c <> None ->
  is_ws c = false /\ Ascii.eqb c "n" = false /\ Ascii.eqb c "t" = false
  /\ Ascii.eqb c dquote = false /\ Ascii.eqb c "[" = false
  /\ Ascii.eqb c "{" = false /\ Ascii.eqb c "-" = false
  /\ Ascii.eqb "l" c = false.
Proof.
  destruct c as [[] [] [] [] [] [] [] []]; intros H;
    try (exfalso; apply H; reflexivity); repeat split.
Qed.

(** After a hexadecimal text and a colon, the digits that [read_digits]
    takes leave a text that starts with a character that is no white
    space. *)
Lemma read_digits_hex_colon h rest :
  all_hex h = true ->
  exists u c r, read_digits (h ++ String ":" rest) = (u, String c r)
                /\ is_ws c = false.
Proof.
  induction h as [|a h IH]; intros H.
  - exists Nil, ":"%char, rest. split; reflexivity.
  - cbn [all_hex] in H. destruct (Hex.value a) eqn:Ha; [|discriminate].
    destruct (IH H) as (u & c & r & E & Hc).
    cbn [append read_digits]. rewrite E.
    destruct (digit_of a) as [digit|].
    + exists (digit u), c, r. now split.
    + exists Nil, a, (h ++ String ":" rest). split; [reflexivity|].
      apply hex_digit_class. congruence.
Qed.

Lemma skip_ws_hex_colon h rest :
  all_hex h = true ->
  exists c r, skip_ws (h ++ String ":" rest) = String c r.
Proof.
  destruct h as [|a h]; intros H.
  - now exists ":"%char, rest.
  - cbn [all_hex] in H. destruct (Hex.value a) eqn:Ha; [|discriminate].
    cbn [append skip_ws].
    rewrite (proj1 (hex_digit_class a ltac:(congruence))). eauto.
Qed.

Lemma strip_alse_hex_colon h rest :
  all_hex h = true -> strip_prefix "alse" (h ++ String ":" rest) = None.
Proof.
  destruct h as [|a [|b h]]; intros H; cbn [append strip_prefix].
  - reflexivity.
  - destruct (Ascii.eqb "a" a); reflexivity.
  - cbn [all_hex] in H. destruct (Hex.value a); [|discriminate].
    destruct (Hex.value b) eqn:Hb; [|discriminate].
    destruct (Ascii.eqb "a" a); [|reflexivity].
    now rewrite (proj2 (proj2 (proj2 (proj2 (proj2 (proj2 (proj2
              (hex_digit_class b ltac:(congruence))))))))).
Qed.

(** A text that starts with hexadecimal digits and a colon is no JSON
    text. *)
Lemma parse_hex_colon h rest :
  all_hex h = true -> JSON.parse (h ++ String ":" rest) = Throw SyntaxError.
Proof.
  intros H. unfold JSON.parse.
  set (fuel := String.length (h ++ String ":" rest)). clearbody fuel.
  destruct h as [|a h].
  - reflexivity.
  - cbn [all_hex] in H. destruct (Hex.value a) eqn:Ha; [|discriminate].
    destruct (hex_digit_class a ltac:(congruence))
      as (Hws & Hn & Ht & Hq & Hb & Hc & Hm & _).
    cbn [append parse_value skip_ws]. rewrite Hws, Hn, Ht, Hq, Hb, Hc.
    destruct (Ascii.eqb a "f").
    + now rewrite strip_alse_hex_colon.
    + unfold parse_number. rewrite Hm. unfold parse_natural.
      destruct (Ascii.eqb a "0").
      * destruct (skip_ws_hex_colon h rest H) as (c & r & ->). reflexivity.
      * destruct (read_digits_hex_colon (String a h) rest) as (u & c & r & E & Hc').
        { cbn [all_hex]. now rewrite Ha. }
        cbn [append] in E. rewrite E.
        destruct u; try reflexivity; cbn [skip_ws]; now rewrite Hc'.
Qed.

(** What [_writeDB] wrote under a password, read without one. *)
Lemma readDB_without_password lib this other rnd data d' pw :
  truthy (password this) = Some pw ->
  _writeDB lib this rnd data = Ok d' ->
  truthy (password other) = None ->
  _readDB lib other d' = Throw SyntaxError.
Proof.
  intros Hpw Hw Hother.
  destruct (writeDB_envelope lib this rnd data pw d' Hpw Hw)
    as (key & ct & tag & _ & _ & ->).
  rewrite readDB_plain by exact Hother.
  apply (parse_hex_colon (Hex.toString (salt_bytes rnd))).
  apply toString_all_hex.
Qed.

(** *** The operations on a store that reads as an array *)

Section Operations.
Variable lib : CryptoLib.

Lemma insert_unfold this rnd now document d docs :
  _readDB lib this d = Ok (JArr docs) ->
  insert lib this rnd now document d
  = bind (_writeDB lib this rnd
            (JArr (docs ++ [JObj (obj_set document "id" (JNum now))])))
      (fun d' => Ok (obj_set document "id" (JNum now), d')).
Proof. intros Hr. unfold insert. now rewrite Hr. Qed.

Lemma find_unfold inherits this query d docs :
  _readDB lib this d = Ok (JArr (map JObj docs)) ->
  find lib inherits this (Some query) d
  = Ok (map JObj (filter (matchesb inherits query) docs)).
Proof.
  intros Hr. unfold find. rewrite Hr. cbn [bind as_array].
  apply filter_r_objects, matches_object.
Qed.

Lemma delete_unfold this rnd id d docs :
  _readDB lib this d = Ok (JArr (map JObj docs)) ->
  delete lib this rnd id d
  = bind (_writeDB lib this rnd
            (JArr (map JObj (filter (fun doc => negb (id_is id doc)) docs))))
      (fun d' =>
         Ok (negb (length docs
                   =? length (filter (fun doc => negb (id_is id doc)) docs))%nat,
             d')).
Proof.
  intros Hr. unfold delete. rewrite Hr. cbn [bind as_array].
  rewrite (filter_r_objects _ (fun doc => negb (id_is id doc)))
    by (intros doc; reflexivity).
  cbn [bind]. now rewrite !length_map.
Qed.

Lemma update_unfold this rnd id updates d docs :
  _readDB lib this d = Ok (JArr (map JObj docs)) ->
  update lib this rnd id updates d
  = bind (_writeDB lib this rnd
            (JArr (map JObj
                     (map (fun doc => if id_is id doc
                                      then spread doc updates else doc) docs))))
      (fun d' =>
         Ok (option_map JObj
               (List.find (id_is id)
                  (map (fun doc => if id_is id doc
                                   then spread doc updates else doc) docs)),
             d')).
Proof.
  intros Hr.
  pose proof (proj1 (well_formed_objects docs)
                (readDB_well_formed lib this d _ Hr)) as Hdocs.
  assert (map (fun doc => if id_is id doc
                          then spread (spread [] doc) updates else doc) docs
          = map (fun doc => if id_is id doc then spread doc updates else doc) docs)
    as Hmap.
  { apply map_ext_in. intros doc Hin.
    now rewrite (spread_copy doc (Hdocs doc Hin)). }
  unfold update. rewrite Hr. cbn [bind as_array].
  rewrite (map_r_objects _
             (fun doc => if id_is id doc
                         then spread (spread [] doc) updates else doc))
    by (intros doc; rewrite has_id_object; cbn [bind own_properties];
        now destruct (id_is id doc)).
  cbn [bind]. rewrite Hmap.
  destruct (_writeDB lib this rnd _) as [d'|e]; [|reflexivity]. cbn [bind].
  now rewrite (find_r_objects _ (id_is id)) by apply has_id_object.
Qed.

End Operations.

(** The store that [update] writes is well formed. *)
Lemma updated_well_formed id updates docs :
  well_formed (JArr (map JObj docs)) = true ->
  well_formed (JObj updates) = true ->
  well_formed
    (JArr (map JObj (map (fun doc => if id_is id doc
                                     then spread doc updates else doc) docs)))
  = true.
Proof.
  intros Hwf Hu. apply well_formed_objects. intros doc' Hin.
  apply in_map_iff in Hin as (doc & <- & Hin).
  pose proof (proj1 (well_formed_objects docs) Hwf doc Hin) as Hdoc.
  destruct (id_is id doc); [|exact Hdoc].
  apply spread_well_formed; [exact Hdoc|].
  cbn [well_formed] in Hu. now apply andb_true_iff in Hu as [_ Hu].
Qed.

Lemma filtered_well_formed (f : object -> bool) docs :
  well_formed (JArr (map JObj docs)) = true ->
  well_formed (JArr (map JObj (filter f docs))) = true.
Proof.
  intros Hwf. apply well_formed_objects. intros doc Hin.
  apply filter_In in Hin as [Hin _].
  exact (proj1 (well_formed_objects docs) Hwf doc Hin).
Qed.

Lemma appended_well_formed docs document now :
  well_formed (JArr docs) = true ->
  well_formed (JObj document) = true ->
  well_formed (JArr (docs ++ [JObj (obj_set document "id" (JNum now))])) = true.
Proof.
  intros Hwf Hdoc. cbn [well_formed] in Hwf |- *.
  rewrite forallb_app, Hwf. cbn [forallb].
  now rewrite (obj_set_well_formed document "id" (JNum now) Hdoc eq_refl).
Qed.

(** The query [{id: v}] tests the id. *)
Lemma matchesb_id inherits v doc :
  matchesb inherits [("id", Some v)] doc = id_is v doc.
Proof.
  unfold matchesb, id_is. cbn [partial_keys map fst forallb partial_get].
  rewrite String.eqb_refl, andb_true_r.
  destruct (obj_get doc "id"); [reflexivity|]. cbn [strict_equal].
  now rewrite andb_false_r.
Qed.

Lemma filter_none {A} (f : A -> bool) l :
  (forall x, In x l -> f x = false) -> filter f l = [].
Proof.
  induction l as [|x l IH]; simpl; intros H; [reflexivity|].
  rewrite (H x (or_introl eq_refl)). apply IH. intros y Hy. apply H. now right.
Qed.

Lemma filter_idem {A} (f : A -> bool) l : filter f (filter f l) = filter f l.
Proof.
  apply filter_all. intros x Hx. now apply filter_In in Hx.
Qed.

(** Setting again what is set changes nothing. *)
Lemma obj_set_same o k v : obj_get o k = Some v -> obj_set o k v = o.
Proof.
  induction o as [|[k0 v0] o IH]; simpl; [discriminate|].
  destruct (String.eqb k0 k); [now intros [= ->] | intros H; now rewrite IH].
Qed.

Lemma spread_same l : forall acc,
  (forall k v, In (k, v) l -> obj_get acc k = Some v) -> spread acc l = acc.
Proof.
  unfold spread. induction l as [|[k v] l IH]; intros acc H; simpl; [reflexivity|].
  rewrite obj_set_same by (apply H; now left).
  apply IH. intros k' v' Hin. apply H. now right.
Qed.

Lemma obj_get_NoDup_In o k v :
  NoDup (keys o) -> In (k, v) o -> obj_get o k = Some v.
Proof.
  induction o as [|[k0 v0] o IH]; simpl; [intros _ []|].
  intros Hnd [[= -> ->]|Hin].
  - now rewrite String.eqb_refl.
  - inversion Hnd; subst. destruct (String.eqb_spec k0 k) as [E|E].
    + subst. exfalso. apply H1. change k with (fst (k, v)). now apply in_map.
    + now apply IH.
Qed.

(** Merging the same updates a second time changes nothing. *)
Lemma spread_idem doc updates :
  NoDup (keys updates) -> spread (spread doc updates) updates = spread doc updates.
Proof.
  intros Hnd. apply spread_same. intros k v Hin.
  rewrite (obj_get_spread updates doc Hnd k).
  now rewrite (obj_get_NoDup_In updates k v Hnd Hin).
Qed.

(** A merge that keeps the id keeps the value under [id]. *)
Lemma obj_get_id_spread id doc updates :
  NoDup (keys updates) -> keeps_id id updates -> id_is id doc = true ->
  obj_get (spread doc updates) "id" = obj_get doc "id".
Proof.
  intros Hnd Hk Hid. rewrite (obj_get_spread updates doc Hnd "id").
  destruct Hk as [-> | Hsame]; [reflexivity|].
  destruct (obj_get updates "id") as [v|] eqn:Hv; [|reflexivity].
  apply strict_equal_spec in Hsame as (w & [= <-] & Hs).
  rewrite (id_is_true id doc Hid). now destruct Hs.
Qed.

(** *** Lists and queries *)

Lemma NoDup_map_filter {A B} (g : A -> B) (f : A -> bool) l :
  NoDup (map g l) -> NoDup (map g (filter f l)).
Proof.
  induction l as [|x l IH]; simpl; intros H; [constructor|].
  inversion H as [|? ? Hx Hl]; subst.
  destruct (f x); [|auto]. simpl. constructor; [|auto].
  intros Hin. apply Hx. apply in_map_iff in Hin as (y & Hy & Hin).
  apply filter_In in Hin as [Hin _]. rewrite <- Hy. now apply in_map.
Qed.

Lemma NoDup_snoc {A} (l : list A) x : NoDup l -> ~ In x l -> NoDup (l ++ [x]).
Proof.
  induction l as [|y l IH]; simpl; intros Hnd Hx.
  - constructor; [intros [] | constructor].
  - inversion Hnd; subst. constructor.
    + rewrite in_app_iff. intros [H | [H | []]]; [auto | subst; auto].
    + apply IH; auto.
Qed.

(** A query with a field that holds an array or an object holds for no
    document. *)
Lemma matchesb_reference inherits query k v doc :
  In k (partial_keys query) -> partial_get query k = Some v ->
  (exists items, v = JArr items) \/ (exists fields, v = JObj fields) ->
  matchesb inherits query doc = false.
Proof.
  intros Hin Hq Hv. destruct (matchesb inherits query doc) eqn:E; [|reflexivity].
  unfold matchesb in E. rewrite forallb_forall in E. specialize (E k Hin).
  rewrite Hq in E. destruct (obj_get doc k) as [x|].
  - destruct Hv as [(items & ->) | (fields & ->)]; now destruct x.
  - now rewrite andb_false_r in E.
Qed.

(** The merge of [update], done twice, is the merge done once. *)
Lemma merge_idem id updates doc :
  NoDup (keys updates) -> keeps_id id updates ->
  (fun doc => if id_is id doc then spread doc updates else doc)
    (if id_is id doc then spread doc updates else doc)
  = if id_is id doc then spread doc updates else doc.
Proof.
  intros Hnd Hk. cbv beta. destruct (id_is id doc) eqn:Hid.
  - now rewrite (id_is_spread id doc updates Hnd Hk Hid), spread_idem.
  - now rewrite Hid.
Qed.

Lemma filter_andb {A} (f g : A -> bool) l :
  filter (fun x => f x && g x) l = filter f (filter g l).
Proof.
  induction l as [|x l IH]; simpl; [reflexivity|].
  destruct (g x); simpl; rewrite IH.
  - now rewrite andb_true_r.
  - now rewrite andb_false_r.
Qed.

Lemma forallb_ext_in {A} (f g : A -> bool) l :
  (forall x, In x l -> f x = g x) -> forallb f l = forallb g l.
Proof.
  induction l as [|x l IH]; simpl; intros H; [reflexivity|].
  rewrite (H x (or_introl eq_refl)), IH; auto.
Qed.

(** A query with one more field asks for that field and for the rest. *)
Lemma matchesb_cons inherits k v query doc :
  ~ In k (partial_keys query) ->
  matchesb inherits ((k, v) :: query) doc
  = matchesb inherits [(k, v)] doc && matchesb inherits query doc.
Proof.
  intros Hk. unfold matchesb.
  cbn [partial_keys map fst forallb partial_get]. rewrite String.eqb_refl.
  rewrite andb_true_r. f_equal. apply forallb_ext_in. intros k' Hin.
  destruct (String.eqb_spec k k') as [E|E]; [|reflexivity].
  subst. contradiction.
Qed.

End OperationFacts.
Import OperationFacts.

(** *** The constructor *)

(** X1. On a missing file, a [constructor] that returns has created the
    file of the empty store: the file exists, [_readDB] returns the empty
    array and [find] no document, and opening it again gives the same
    instance and leaves the file alone. *)
Theorem constructor_creates_empty_store (lib : CryptoLib)
        (inherits : json -> string -> bool) (o : options)
        (rnd : entropy) (this : JsonDB.t) (d' : disk) :
  cipher_correct lib ->
  constructor lib o rnd None = Ok (this, d') ->
  (exists text, d' = Some text)
  /\ _readDB lib this d' = Ok (JArr [])
  /\ find lib inherits this None d' = Ok []
  /\ (forall rnd', constructor lib o rnd' d' = Ok (this, d')).
Proof.
  intros Hlib Hc. pose proof (constructor_this _ _ _ _ _ _ Hc) as Hthis.
  assert ((exists text, d' = Some text) /\ _readDB lib this d' = Ok (JArr []))
    as [Hfile Hread].
  { revert Hc. unfold constructor. cbv zeta. rewrite <- Hthis.
    destruct (truthy (password this)) as [pw|] eqn:Hpw.
    - destruct (_deriveKey lib this pw _) as [key|] eqn:Hk; [|discriminate].
      cbn [bind].
      destruct (_encryptWithKey lib this _ _ key) as [enc|] eqn:He; [|discriminate].
      cbn [bind]. intros [= <-].
      destruct (encryptWithKey_parts _ _ _ _ _ _ He) as (ct & tag & Hct & ->).
      split; [eauto|].
      pose proof (readDB_envelope lib this pw (salt_bytes rnd) (iv_bytes rnd)
                    tag ct key Hpw Hk) as R.
      rewrite (Hlib _ _ _ _ _ _ Hct) in R. exact R.
    - intros [= <-]. split; [eauto|]. now rewrite readDB_plain. }
  split; [exact Hfile|]. split; [exact Hread|]. split.
  - unfold find. now rewrite Hread.
  - intros rnd'. destruct Hfile as (text & ->). unfold constructor.
    now rewrite <- Hthis.
Qed.

Lemma constructor_creates_empty_store_witness :
  constructor ToyCrypto.lib Sample.open_locked Sample.rnd None
  = Ok (Sample.locked,
        Some ("3a910cf452e718bd662fa07bc34d851e:9f02d64b73e108ac35c75ab0:"
              ++ "6f6c6433613931306366343532653731386264363632666130"
              ++ "376263333464383531659f02d64b73e108ac35c75ab05b5d:5b5d"))
  /\ _readDB ToyCrypto.lib Sample.locked
       (Some ("3a910cf452e718bd662fa07bc34d851e:9f02d64b73e108ac35c75ab0:"
              ++ "6f6c6433613931306366343532653731386264363632666130"
              ++ "376263333464383531659f02d64b73e108ac35c75ab05b5d:5b5d"))
     = Ok (JArr []).
Proof.
  split; [reflexivity|].
  exact (proj1 (proj2 (constructor_creates_empty_store ToyCrypto.lib
                         Sample.inherits Sample.open_locked Sample.rnd
                         Sample.locked _ toy_correct eq_refl))).
Defined.



(** *** Encrypted texts *)

(** X3. What [_encryptWithKey] returns has exactly three parts between its
    colons, and [_decryptWithKey] turns it back into the text under the
    same key. *)
Theorem decrypt_encrypt (lib : CryptoLib) (this : JsonDB.t)
        (iv key : list Byte.byte) (text encrypted : string) :
  cipher_correct lib ->
  _encryptWithKey lib this iv text key = Ok encrypted ->
  length (split encrypted ":") = 3
  /\ _decryptWithKey lib this encrypted key = Ok text.
Proof.
  intros Hlib He.
  destruct (encryptWithKey_parts _ _ _ _ _ _ He) as (ct & tag & Hc & ->).
  unfold _decryptWithKey. rewrite HexFacts.split_parts. split; [reflexivity|].
  cbn [length Nat.eqb negb nth]. rewrite !HexFacts.from_toString.
  exact (Hlib _ _ _ _ _ _ Hc).
Qed.

Lemma decrypt_encrypt_witness :
  _encryptWithKey ToyCrypto.lib Sample.locked (iv_bytes Sample.rnd) "[]"
    (list_byte_of_string "key")
  = Ok "9f02d64b73e108ac35c75ab0:6b65799f02d64b73e108ac35c75ab05b5d:5b5d"
  /\ _decryptWithKey ToyCrypto.lib Sample.locked
       "9f02d64b73e108ac35c75ab0:6b65799f02d64b73e108ac35c75ab05b5d:5b5d"
       (list_byte_of_string "key") = Ok "[]".
Proof.
  split; [reflexivity|].
  exact (proj2 (decrypt_encrypt ToyCrypto.lib Sample.locked (iv_bytes Sample.rnd)
                  (list_byte_of_string "key") "[]"
                  "9f02d64b73e108ac35c75ab0:6b65799f02d64b73e108ac35c75ab05b5d:5b5d"
                  toy_correct eq_refl)).
Defined.

(** X4. [_decryptWithKey] does not look at the case of the hexadecimal
    letters: a file in which letters of the IV, the tag or the ciphertext
    are put in upper case reads as the file itself, whatever the crypto
    library. *)
Theorem hex_case_ignored (lib : CryptoLib) (this : JsonDB.t)
        (pw salt iv authTag ciphertext : string) :
  truthy (password this) = Some pw ->
  occurs ":" salt = false -> occurs ":" iv = false ->
  occurs ":" authTag = false -> occurs ":" ciphertext = false ->
  _readDB lib this
    (Some (salt ++ ":" ++ upper iv ++ ":" ++ upper authTag ++ ":"
           ++ upper ciphertext))
  = _readDB lib this
      (Some (salt ++ ":" ++ iv ++ ":" ++ authTag ++ ":" ++ ciphertext)).
Proof.
  intros Hpw Hs Hi Ht Hc.
  rewrite !(readDB_parts lib this pw);
    try assumption; try (now rewrite occurs_upper).
  now rewrite !from_upper.
Qed.

Lemma hex_case_ignored_witness :
  _readDB ToyCrypto.lib Sample.locked
    (Some ("3a910cf452e718bd662fa07bc34d851e:9F02D64B73E108AC35C75AB0:"
           ++ "6F6C6433613931306366343532653731386264363632666130"
           ++ "376263333464383531659F02D64B73E108AC35C75AB05B5D:5B5D"))
  = Ok (JArr []).
Proof.
  exact (hex_case_ignored ToyCrypto.lib Sample.locked "old"
           "3a910cf452e718bd662fa07bc34d851e" "9f02d64b73e108ac35c75ab0"
           ("6f6c6433613931306366343532653731386264363632666130"
            ++ "376263333464383531659f02d64b73e108ac35c75ab05b5d")
           "5b5d" eq_refl eq_refl eq_refl eq_refl eq_refl).
Defined.

(** *** Reading *)

(** X5. A file that [_writeDB] wrote under a password is never read as
    documents by an instance without a password: whatever the crypto
    library, [_readDB] throws [SyntaxError], and so does every operation
    of that instance. *)
Theorem encrypted_file_needs_password (lib : CryptoLib)
        (inherits : json -> string -> bool)
        (this other : JsonDB.t) (rnd : entropy) (data : json) (d' : disk)
        (pw : string) :
  truthy (password this) = Some pw ->
  _writeDB lib this rnd data = Ok d' ->
  truthy (password other) = None ->
  _readDB lib other d' = Throw SyntaxError
  /\ (forall query, find lib inherits other query d' = Throw SyntaxError)
  /\ (forall rnd' now document,
        insert lib other rnd' now document d' = Throw SyntaxError)
  /\ (forall rnd' id updates,
        update lib other rnd' id updates d' = Throw SyntaxError)
  /\ (forall rnd' id, delete lib other rnd' id d' = Throw SyntaxError).
Proof.
  intros Hpw Hw Hother.
  pose proof (readDB_without_password lib this other rnd data d' pw Hpw Hw Hother)
    as Hr.
  split; [exact Hr|].
  unfold find, insert, update, delete. rewrite Hr. cbn [bind]. auto.
Qed.

Lemma encrypted_file_needs_password_witness :
  _readDB ToyCrypto.lib Sample.plain Sample.locked_disk = Throw SyntaxError
  /\ find ToyCrypto.lib Sample.inherits Sample.plain None Sample.locked_disk
     = Throw SyntaxError.
Proof.
  destruct (encrypted_file_needs_password ToyCrypto.lib Sample.inherits
              Sample.locked Sample.plain Sample.rnd Sample.store
              Sample.locked_disk "old" eq_refl eq_refl eq_refl) as (Hr & Hf & _).
  split; [exact Hr | exact (Hf None)].
Defined.

(** X6. Every operation reads before it writes: when [_readDB] throws,
    [find], [insert], [update] and [delete] throw the same error and
    nothing is written; when it returns valid JSON that is no array, they
    throw [TypeError], again with nothing written. *)
Theorem failed_read_aborts (lib : CryptoLib)
        (inherits : json -> string -> bool) (this : JsonDB.t) (d : disk) :
  (forall e, _readDB lib this d = Throw e ->
     (forall query, find lib inherits this query d = Throw e)
     /\ (forall rnd now document, insert lib this rnd now document d = Throw e)
     /\ (forall rnd id updates, update lib this rnd id updates d = Throw e)
     /\ (forall rnd id, delete lib this rnd id d = Throw e))
  /\ (forall v, _readDB lib this d = Ok v -> (forall items, v <> JArr items) ->
        (forall query, find lib inherits this query d = Throw TypeError)
        /\ (forall rnd now document,
              insert lib this rnd now document d = Throw TypeError)
        /\ (forall rnd id updates,
              update lib this rnd id updates d = Throw TypeError)
        /\ (forall rnd id, delete lib this rnd id d = Throw TypeError)).
Proof.
  split.
  - intros e Hr. unfold find, insert, update, delete. rewrite Hr. cbn [bind]. auto.
  - intros v Hr Hv. unfold find, insert, update, delete. rewrite Hr. cbn [bind].
    assert (as_array v = Throw TypeError) as ->
        by (destruct v; try reflexivity; now destruct (Hv items)).
    cbn [bind]. auto.
Qed.

Lemma failed_read_aborts_witness :
  find ToyCrypto.lib Sample.inherits Sample.plain None None = Throw ENOENT
  /\ insert ToyCrypto.lib Sample.plain Sample.rnd 1 [] (Some "{}")
     = Throw TypeError.
Proof.
  split.
  - exact (proj1 (proj1 (failed_read_aborts ToyCrypto.lib Sample.inherits
                           Sample.plain None) ENOENT eq_refl) None).
  - exact (proj1 (proj2 (proj2 (failed_read_aborts ToyCrypto.lib Sample.inherits
                                  Sample.plain (Some "{}"))
                           (JObj []) eq_refl ltac:(discriminate)))
             Sample.rnd 1%Z []).
Defined.

(** *** Changing the password *)

(** X7. The password of an encrypted store cannot be changed or dropped
    without the old one: on a file written under a password, a
    [changePassword] without a payload, without [oldPassword] or with the
    empty one throws [Invalid old password. Password change aborted.] and
    leaves instance and file as they were. *)
Theorem changePassword_needs_old_password (lib : CryptoLib)
        (writer this : JsonDB.t) (rnd rnd' : entropy) (data : json)
        (d : disk) (pw : string) (p : option payload) :
  truthy (password writer) = Some pw ->
  _writeDB lib writer rnd data = Ok d ->
  truthy (match p with Some p => oldPassword p | None => None end) = None ->
  changePassword lib this rnd' p d
  = (Throw (Error "Invalid old password. Password change aborted."), this, d).
Proof.
  intros Hpw Hw Hold.
  pose proof (readDB_without_password lib writer
                (set_password this
                   (match p with Some p => oldPassword p | None => None end))
                rnd data d pw Hpw Hw Hold) as Hr.
  unfold changePassword. rewrite Hr. now rewrite set_password_restore.
Qed.

Lemma changePassword_needs_old_password_witness :
  changePassword ToyCrypto.lib Sample.locked Sample.rnd None Sample.locked_disk
  = (Throw (Error "Invalid old password. Password change aborted."),
     Sample.locked, Sample.locked_disk)
  /\ changePassword ToyCrypto.lib Sample.locked Sample.rnd
       (Some {| oldPassword := Some ""; newPassword := None |}) Sample.locked_disk
     = (Throw (Error "Invalid old password. Password change aborted."),
        Sample.locked, Sample.locked_disk).
Proof.
  split.
  - exact (changePassword_needs_old_password ToyCrypto.lib Sample.locked
             Sample.locked Sample.rnd Sample.rnd Sample.store Sample.locked_disk
             "old" None eq_refl eq_refl eq_refl).
  - exact (changePassword_needs_old_password ToyCrypto.lib Sample.locked
             Sample.locked Sample.rnd Sample.rnd Sample.store Sample.locked_disk
             "old" (Some {| oldPassword := Some ""; newPassword := None |})
             eq_refl eq_refl eq_refl).
Defined.

(** X8. A [changePassword] that succeeds keeps the data: the instance
    holds the new password, and what it reads from the new file is what was
    read from the old one under the old password. *)
Theorem changePassword_keeps_data (lib : CryptoLib) (this this' : JsonDB.t)
        (rnd : entropy) (p : option payload) (d d' : disk) :
  cipher_correct lib ->
  changePassword lib this rnd p d = (Ok tt, this', d') ->
  let oldPassword := match p with Some p => oldPassword p | None => None end in
  let newPassword := match p with Some p => newPassword p | None => None end in
  this' = set_password this newPassword
  /\ exists data,
       _readDB lib (set_password this oldPassword) d = Ok data
       /\ _readDB lib this' d' = Ok data.
Proof.
  intros Hlib Hc oldPassword newPassword. revert Hc. unfold changePassword.
  fold oldPassword newPassword.
  destruct (_readDB lib (set_password this oldPassword) d) as [data|e] eqn:Hr;
    [|discriminate].
  assert (set_password (set_password this oldPassword) newPassword
          = set_password this newPassword) as -> by reflexivity.
  destruct (_writeDB lib (set_password this newPassword) rnd data) as [w|e] eqn:Hw;
    [|discriminate].
  intros [= <- <-]. split; [reflexivity|]. exists data. split; [reflexivity|].
  apply (readDB_writeDB lib _ rnd data w Hlib); [|exact Hw].
  exact (readDB_well_formed lib _ d data Hr).
Qed.

Lemma changePassword_keeps_data_witness :
  let p := {| oldPassword := Some "old"; newPassword := Some "new" |} in
  let this' := set_password Sample.locked (Some "new") in
  let d' := match _writeDB ToyCrypto.lib this' Sample.rnd Sample.store with
            | Ok w => w
            | Throw _ => None
            end in
  exists data,
    _readDB ToyCrypto.lib (set_password Sample.locked (Some "old"))
      Sample.locked_disk = Ok data
    /\ _readDB ToyCrypto.lib this' d' = Ok data.
Proof.
  intros p this' d'.
  exact (proj2 (changePassword_keeps_data ToyCrypto.lib Sample.locked this'
                  Sample.rnd (Some p) Sample.locked_disk d' toy_correct
                  eq_refl)).
Defined.

(** *** Documents *)

(** X9. [insert] appends: when the write succeeds, the call returns the
    document with [id] set to the clock value and every other field as
    given (an [id] of the caller's is overwritten), and the store read back
    is the old one followed by that document. *)
Theorem insert_appends (lib : CryptoLib) (this : JsonDB.t) (rnd : entropy)
        (now : Z) (document : object) (d d' : disk) (docs : list json) :
  cipher_correct lib ->
  _readDB lib this d = Ok (JArr docs) ->
  well_formed (JObj document) = true ->
  _writeDB lib this rnd (JArr (docs ++ [JObj (obj_set document "id" (JNum now))]))
  = Ok d' ->
  exists stored,
    insert lib this rnd now document d = Ok (stored, d')
    /\ obj_get stored "id" = Some (JNum now)
    /\ (forall k, k <> "id" -> obj_get stored k = obj_get document k)
    /\ _readDB lib this d' = Ok (JArr (docs ++ [JObj stored])).
Proof.
  intros Hlib Hr Hdoc Hw. exists (obj_set document "id" (JNum now)).
  split; [|split; [|split]].
  - rewrite (insert_unfold lib this rnd now document d docs Hr), Hw. reflexivity.
  - now rewrite obj_get_obj_set, String.eqb_refl.
  - intros k Hk. rewrite obj_get_obj_set.
    destruct (String.eqb_spec "id" k); [congruence | reflexivity].
  - apply (readDB_writeDB lib this rnd _ d' Hlib); [|exact Hw].
    apply appended_well_formed; [|exact Hdoc].
    exact (readDB_well_formed lib this d _ Hr).
Qed.

Lemma insert_appends_witness :
  exists stored,
    insert ToyCrypto.lib Sample.plain Sample.rnd 1701234567999
      [("id", JStr "mine"); ("name", JStr "Carol")] Sample.plain_disk
    = Ok (stored,
          Some (stringify
                  (JArr [JObj Sample.alice; JObj Sample.bob;
                         JObj [("id", JNum 1701234567999);
                               ("name", JStr "Carol")]]) 2))
    /\ obj_get stored "id" = Some (JNum 1701234567999).
Proof.
  destruct (insert_appends ToyCrypto.lib Sample.plain Sample.rnd 1701234567999
              [("id", JStr "mine"); ("name", JStr "Carol")] Sample.plain_disk
              (Some (stringify
                       (JArr [JObj Sample.alice; JObj Sample.bob;
                              JObj [("id", JNum 1701234567999);
                                    ("name", JStr "Carol")]]) 2))
              [JObj Sample.alice; JObj Sample.bob]
              toy_correct eq_refl eq_refl eq_refl)
    as (stored & Hins & Hid & _).
  exists stored. split; [exact Hins | exact Hid].
Defined.

(** X10. What [insert] stored, [find] finds: after an [insert] that returned a
    document, the query for its id returns the earlier documents of that
    id followed by the new one, hence the new one alone when the clock
    value was no id of the store, and the query for everything returns the
    old documents followed by the new one. *)
Theorem insert_then_find (lib : CryptoLib) (inherits : json -> string -> bool)
        (this : JsonDB.t) (rnd : entropy) (now : Z) (document stored : object)
        (d d' : disk) (docs : list object) :
  cipher_correct lib ->
  _readDB lib this d = Ok (JArr (map JObj docs)) ->
  well_formed (JObj document) = true ->
  insert lib this rnd now document d = Ok (stored, d') ->
  find lib inherits this (Some [("id", Some (JNum now))]) d'
  = Ok (map JObj (filter (id_is (JNum now)) docs ++ [stored]))
  /\ ((forall doc, In doc docs -> id_is (JNum now) doc = false) ->
      find lib inherits this (Some [("id", Some (JNum now))]) d'
      = Ok [JObj stored])
  /\ find lib inherits this None d' = Ok (map JObj (docs ++ [stored])).
Proof.
  intros Hlib Hr Hdoc Hins.
  rewrite (insert_unfold lib this rnd now document d _ Hr) in Hins.
  destruct (_writeDB lib this rnd _) as [w|e] eqn:Hw; [|discriminate].
  cbn [bind] in Hins. injection Hins as <- <-.
  set (stored := obj_set document "id" (JNum now)) in *.
  assert (_readDB lib this w = Ok (JArr (map JObj (docs ++ [stored])))) as Hr'.
  { rewrite map_app. apply (readDB_writeDB lib this rnd _ w Hlib); [|exact Hw].
    apply appended_well_formed; [|exact Hdoc].
    exact (readDB_well_formed lib this d _ Hr). }
  assert (find lib inherits this (Some [("id", Some (JNum now))]) w
          = Ok (map JObj (filter (id_is (JNum now)) docs ++ [stored]))) as Hfind.
  { rewrite (find_unfold lib inherits this _ w _ Hr'). do 2 f_equal.
    rewrite (filter_ext _ _ (matchesb_id inherits (JNum now))), filter_app.
    f_equal. cbn [filter]. unfold id_is, stored.
    rewrite obj_get_obj_set, String.eqb_refl. cbn [strict_equal].
    now rewrite Z.eqb_refl. }
  split; [exact Hfind|]. split.
  - intros Hfresh. rewrite Hfind. now rewrite (filter_none _ _ Hfresh).
  - unfold find. rewrite Hr'. cbn [bind as_array].
    rewrite (filter_r_objects _ (matchesb inherits [])) by apply matches_object.
    now rewrite filter_all.
Qed.

Lemma insert_then_find_witness :
  let carol := [("name", JStr "Carol"); ("id", JNum 1701234567999)] in
  let d' := Some (stringify
                    (JArr [JObj Sample.alice; JObj Sample.bob; JObj carol]) 2) in
  find ToyCrypto.lib Sample.inherits Sample.plain
    (Some [("id", Some (JNum 1701234567999))]) d'
  = Ok [JObj carol].
Proof.
  intros carol d'.
  apply (proj1 (proj2 (insert_then_find ToyCrypto.lib Sample.inherits
                         Sample.plain Sample.rnd 1701234567999
                         [("name", JStr "Carol")] carol Sample.plain_disk d'
                         [Sample.alice; Sample.bob]
                         toy_correct eq_refl eq_refl eq_refl))).
  intros doc [<- | [<- | []]]; reflexivity.
Defined.

(** X11. [delete] is idempotent: after a [delete] that returned, the query
    for the id finds nothing, and a second [delete] of the same id answers
    [false] and writes the same store again. *)
Theorem delete_twice (lib : CryptoLib) (inherits : json -> string -> bool)
        (this : JsonDB.t) (rnd rnd' : entropy) (id : json) (removed : bool)
        (d d1 d2 : disk) (docs : list object) :
  cipher_correct lib ->
  _readDB lib this d = Ok (JArr (map JObj docs)) ->
  delete lib this rnd id d = Ok (removed, d1) ->
  _writeDB lib this rnd'
    (JArr (map JObj (filter (fun doc => negb (id_is id doc)) docs))) = Ok d2 ->
  find lib inherits this (Some [("id", Some id)]) d1 = Ok []
  /\ delete lib this rnd' id d1 = Ok (false, d2)
  /\ _readDB lib this d2 = _readDB lib this d1.
Proof.
  intros Hlib Hr Hdel Hw2.
  rewrite (delete_unfold lib this rnd id d docs Hr) in Hdel.
  set (kept := filter (fun doc => negb (id_is id doc)) docs) in *.
  destruct (_writeDB lib this rnd _) as [w|e] eqn:Hw; [|discriminate].
  cbn [bind] in Hdel. injection Hdel as _ <-.
  assert (well_formed (JArr (map JObj kept)) = true) as Hwf
      by (apply filtered_well_formed; exact (readDB_well_formed lib this d _ Hr)).
  pose proof (readDB_writeDB lib this rnd _ w Hlib Hwf Hw) as Hr1.
  assert (filter (fun doc => negb (id_is id doc)) kept = kept) as Hidem
      by apply filter_idem.
  split; [|split].
  - rewrite (find_unfold lib inherits this _ w _ Hr1).
    rewrite (filter_ext _ _ (matchesb_id inherits id)), filter_none; [reflexivity|].
    intros doc Hin. apply filter_In in Hin as [_ Hin].
    now apply negb_true_iff in Hin.
  - rewrite (delete_unfold lib this rnd' id w kept Hr1), Hidem, Hw2.
    cbn [bind]. now rewrite Nat.eqb_refl.
  - rewrite Hr1. exact (readDB_writeDB lib this rnd' _ d2 Hlib Hwf Hw2).
Qed.

Lemma delete_twice_witness :
  let d1 := Some (stringify (JArr [JObj Sample.bob]) 2) in
  find ToyCrypto.lib Sample.inherits Sample.plain
    (Some [("id", Some (JNum 1701234567890))]) d1 = Ok []
  /\ delete ToyCrypto.lib Sample.plain Sample.rnd (JNum 1701234567890) d1
     = Ok (false, d1).
Proof.
  intros d1.
  destruct (delete_twice ToyCrypto.lib Sample.inherits Sample.plain Sample.rnd
              Sample.rnd (JNum 1701234567890) true Sample.plain_disk d1 d1
              [Sample.alice; Sample.bob] toy_correct eq_refl eq_refl eq_refl)
    as (Hfind & Hdel & _).
  split; [exact Hfind | exact Hdel].
Defined.

(** X12. [update] with updates that keep the id is idempotent: after an
    [update] that returned, the same [update] again returns the same
    answer and writes the same store again. *)
Theorem update_twice (lib : CryptoLib) (this : JsonDB.t) (rnd rnd' : entropy)
        (id : json) (updates : object) (returned : option json)
        (d d1 d2 : disk) (docs : list object) :
  cipher_correct lib ->
  _readDB lib this d = Ok (JArr (map JObj docs)) ->
  well_formed (JObj updates) = true ->
  keeps_id id updates ->
  update lib this rnd id updates d = Ok (returned, d1) ->
  _writeDB lib this rnd'
    (JArr (map JObj (map (fun doc => if id_is id doc
                                     then spread doc updates else doc) docs)))
  = Ok d2 ->
  update lib this rnd' id updates d1 = Ok (returned, d2)
  /\ _readDB lib this d2 = _readDB lib this d1.
Proof.
  intros Hlib Hr Hu Hk Hup Hw2.
  assert (NoDup (keys updates)) as Hnd.
  { cbn [well_formed] in Hu. apply andb_true_iff in Hu as [Hu _].
    now apply distinct_NoDup. }
  rewrite (update_unfold lib this rnd id updates d docs Hr) in Hup.
  set (merge := fun doc => if id_is id doc then spread doc updates else doc) in *.
  destruct (_writeDB lib this rnd _) as [w|e] eqn:Hw; [|discriminate].
  cbn [bind] in Hup. injection Hup as <- <-.
  assert (well_formed (JArr (map JObj (map merge docs))) = true) as Hwf
      by (apply updated_well_formed;
          [exact (readDB_well_formed lib this d _ Hr) | exact Hu]).
  pose proof (readDB_writeDB lib this rnd _ w Hlib Hwf Hw) as Hr1.
  assert (map merge (map merge docs) = map merge docs) as Hidem.
  { rewrite map_map. apply map_ext. intros doc.
    exact (merge_idem id updates doc Hnd Hk). }
  split.
  - rewrite (update_unfold lib this rnd' id updates w _ Hr1).
    fold merge. rewrite Hidem, Hw2. reflexivity.
  - rewrite Hr1. exact (readDB_writeDB lib this rnd' _ d2 Hlib Hwf Hw2).
Qed.

Lemma update_twice_witness :
  let bob := [("id", JNum 1701234567891); ("name", JStr "Bob");
              ("age", JNum 32)] in
  let d1 := Some (stringify (JArr [JObj Sample.alice; JObj bob]) 2) in
  update ToyCrypto.lib Sample.plain Sample.rnd (JNum 1701234567891)
    [("age", JNum 32)] d1
  = Ok (Some (JObj bob), d1).
Proof.
  intros bob d1.
  exact (proj1 (update_twice ToyCrypto.lib Sample.plain Sample.rnd Sample.rnd
                  (JNum 1701234567891) [("age", JNum 32)] (Some (JObj bob))
                  Sample.plain_disk d1 d1 [Sample.alice; Sample.bob]
                  toy_correct eq_refl eq_refl (or_introl eq_refl)
                  eq_refl eq_refl)).
Defined.

(** X13. When the invariant of the data model is kept.  On a store without
    repeated ids: [delete] leaves a store without repeated ids; [update]
    with updates that keep the id leaves every id as it was; [insert]
    leaves a store without repeated ids when the clock value is no id of
    the store. *)
Theorem unique_ids_preserved (lib : CryptoLib) (this : JsonDB.t)
        (rnd : entropy) (d : disk) (docs : list object) :
  cipher_correct lib ->
  _readDB lib this d = Ok (JArr (map JObj docs)) ->
  unique_ids docs ->
  (forall id removed d',
     delete lib this rnd id d = Ok (removed, d') ->
     exists docs',
       _readDB lib this d' = Ok (JArr (map JObj docs')) /\ unique_ids docs')
  /\ (forall id updates returned d',
        well_formed (JObj updates) = true -> keeps_id id updates ->
        update lib this rnd id updates d = Ok (returned, d') ->
        exists docs',
          _readDB lib this d' = Ok (JArr (map JObj docs'))
          /\ map (fun doc => obj_get doc "id") docs'
             = map (fun doc => obj_get doc "id") docs
          /\ unique_ids docs')
  /\ (forall now document stored d',
        well_formed (JObj document) = true ->
        (forall doc, In doc docs -> obj_get doc "id" <> Some (JNum now)) ->
        insert lib this rnd now document d = Ok (stored, d') ->
        _readDB lib this d' = Ok (JArr (map JObj (docs ++ [stored])))
        /\ unique_ids (docs ++ [stored])).
Proof.
  intros Hlib Hr Hu. pose proof (readDB_well_formed lib this d _ Hr) as Hwf.
  split; [|split].
  - intros id removed d' Hdel.
    rewrite (delete_unfold lib this rnd id d docs Hr) in Hdel.
    destruct (_writeDB lib this rnd _) as [w|e] eqn:Hw; [|discriminate].
    cbn [bind] in Hdel. injection Hdel as _ <-.
    eexists. split.
    + apply (readDB_writeDB lib this rnd _ w Hlib); [|exact Hw].
      now apply filtered_well_formed.
    + now apply NoDup_map_filter.
  - intros id updates returned d' Hup Hk Hupd.
    assert (NoDup (keys updates)) as Hnd.
    { cbn [well_formed] in Hup. apply andb_true_iff in Hup as [Hup _].
      now apply distinct_NoDup. }
    rewrite (update_unfold lib this rnd id updates d docs Hr) in Hupd.
    destruct (_writeDB lib this rnd _) as [w|e] eqn:Hw; [|discriminate].
    cbn [bind] in Hupd. injection Hupd as _ <-.
    assert (map (fun doc => obj_get doc "id")
              (map (fun doc => if id_is id doc
                               then spread doc updates else doc) docs)
            = map (fun doc => obj_get doc "id") docs) as Hids.
    { rewrite map_map. apply map_ext. intros doc.
      destruct (id_is id doc) eqn:Hid; [|reflexivity].
      now apply (obj_get_id_spread id). }
    eexists. split; [|split; [exact Hids|]].
    + apply (readDB_writeDB lib this rnd _ w Hlib); [|exact Hw].
      now apply updated_well_formed.
    + unfold unique_ids. now rewrite Hids.
  - intros now document stored d' Hdoc Hfresh Hins.
    rewrite (insert_unfold lib this rnd now document d _ Hr) in Hins.
    destruct (_writeDB lib this rnd _) as [w|e] eqn:Hw; [|discriminate].
    cbn [bind] in Hins. injection Hins as <- <-. split.
    + rewrite map_app. apply (readDB_writeDB lib this rnd _ w Hlib); [|exact Hw].
      now apply appended_well_formed.
    + unfold unique_ids. rewrite map_app. cbn [map].
      rewrite obj_get_obj_set, String.eqb_refl.
      apply NoDup_snoc; [exact Hu|].
      intros Hin. apply in_map_iff in Hin as (doc & Hid & Hin).
      exact (Hfresh doc Hin Hid).
Qed.

Lemma unique_ids_preserved_witness :
  exists docs',
    _readDB ToyCrypto.lib Sample.plain
      (Some (stringify (JArr [JObj Sample.bob]) 2))
    = Ok (JArr (map JObj docs'))
    /\ unique_ids docs'.
Proof.
  assert (unique_ids [Sample.alice; Sample.bob]) as Hu.
  { unfold unique_ids. cbn. constructor.
    - intros [H | []]. discriminate H.
    - constructor; [intros [] | constructor]. }
  exact (proj1 (unique_ids_preserved ToyCrypto.lib Sample.plain Sample.rnd
                  Sample.plain_disk [Sample.alice; Sample.bob]
                  toy_correct eq_refl Hu)
           (JNum 1701234567890) true
           (Some (stringify (JArr [JObj Sample.bob]) 2)) eq_refl).
Defined.

(** X14. [find] does not search by an array or an object: equality of such
    values is identity, and no value read from the file is the caller's,
    so a query with a field that holds an array or an object returns no
    document, although a document may hold an equal array or object. *)
Theorem find_by_array_or_object (lib : CryptoLib)
        (inherits : json -> string -> bool) (this : JsonDB.t) (d : disk)
        (docs : list object) (query : partial) (k : string) (v : json) :
  _readDB lib this d = Ok (JArr (map JObj docs)) ->
  In k (partial_keys query) -> partial_get query k = Some v ->
  (exists items, v = JArr items) \/ (exists fields, v = JObj fields) ->
  find lib inherits this (Some query) d = Ok [].
Proof.
  intros Hr Hin Hq Hv. rewrite (find_unfold lib inherits this query d docs Hr).
  rewrite filter_none; [reflexivity|].
  intros doc _. exact (matchesb_reference inherits query k v doc Hin Hq Hv).
Qed.

Lemma find_by_array_or_object_witness :
  let store := JArr [JObj [("id", JNum 1); ("tags", JArr [JNum 7])]] in
  _readDB ToyCrypto.lib Sample.plain (Some (stringify store 2)) = Ok store
  /\ find ToyCrypto.lib Sample.inherits Sample.plain
       (Some [("tags", Some (JArr [JNum 7]))]) (Some (stringify store 2))
     = Ok [].
Proof.
  intros store. split; [reflexivity|].
  apply (find_by_array_or_object ToyCrypto.lib Sample.inherits Sample.plain
           (Some (stringify store 2))
           [[("id", JNum 1); ("tags", JArr [JNum 7])]]
           [("tags", Some (JArr [JNum 7]))] "tags" (JArr [JNum 7])
           eq_refl (or_introl eq_refl) eq_refl).
  left. now exists [JNum 7].
Defined.

(** X15. A query is the conjunction of its fields: with one more field,
    [find] returns what the test of that field keeps of the documents that
    the query returned, in the same order. *)
Theorem find_narrows (lib : CryptoLib) (inherits : json -> string -> bool)
        (this : JsonDB.t) (d : disk) (docs : list object)
        (query : partial) (k : string) (v : option json) :
  _readDB lib this d = Ok (JArr (map JObj docs)) ->
  ~ In k (partial_keys query) ->
  exists found,
    find lib inherits this (Some query) d = Ok found
    /\ find lib inherits this (Some ((k, v) :: query)) d
       = filter_r (matches inherits [(k, v)]) found
    /\ forall doc, In doc found -> In doc (map JObj docs).
Proof.
  intros Hr Hk. exists (map JObj (filter (matchesb inherits query) docs)).
  rewrite !(find_unfold lib inherits this _ d docs Hr).
  split; [reflexivity|]. split.
  - rewrite (filter_r_objects _ (matchesb inherits [(k, v)]))
      by apply matches_object.
    rewrite <- filter_andb. do 2 f_equal. apply filter_ext. intros doc.
    now apply matchesb_cons.
  - intros doc Hin. apply in_map_iff in Hin as (x & <- & Hin).
    apply in_map. now apply filter_In in Hin.
Qed.

Lemma find_narrows_witness :
  find ToyCrypto.lib Sample.inherits Sample.plain
    (Some [("age", Some (JNum 31)); ("name", Some (JStr "Bob"))])
    Sample.plain_disk
  = Ok [JObj Sample.bob].
Proof.
  destruct (find_narrows ToyCrypto.lib Sample.inherits Sample.plain
              Sample.plain_disk [Sample.alice; Sample.bob]
              [("name", Some (JStr "Bob"))] "age" (Some (JNum 31)) eq_refl)
    as (found & Hq & Hmore & _).
  - intros [H | []]. discriminate H.
  - rewrite Hmore. injection Hq as <-. reflexivity.
Defined.
